(** * Icinga 2: flapping detection, reachability, acknowledgements and the
      host's service bookkeeping

    A shallow embedding of [lib/icinga/checkable-flapping.cpp] and
    [lib/icinga/host.cpp].  C++ [int] values are integers of [Z], [double]
    values are binary64 floats ([PrimFloat.float], the IEEE 754 operations of
    the kernel), [std::bitset<20>] is an integer below [2^20], dictionaries
    are association lists in iteration order, the name-keyed object
    registries are [gmap]s, and a thrown C++ exception is the [Throw] result
    of the operation that raises it. *)

From Stdlib Require Import ZArith Lia Floats List.
From stdpp Require Import gmap strings list.

Set Warnings "-inexact-float".
Local Open Scope Z_scope.

(** ** Flapping detection ([Checkable::UpdateFlappingStatus]) *)

Module Flapping.

(** The attributes of a [Checkable] that the flapping code reads and writes. *)
Record Checkable := mkCheckable {
  FlappingBuffer : Z;            (* int: the 20-slot history as a bit mask *)
  FlappingIndex : Z;             (* int: the slot written next *)
  FlappingCurrent : float;       (* double *)
  Flapping : bool;
  FlappingLastChange : float;    (* double: a time stamp *)
  FlappingThresholdLow : float;
  FlappingThresholdHigh : float;
  EnableFlapping : bool
}.

Definition SetFlappingBuffer (v : Z) (c : Checkable) : Checkable :=
  mkCheckable v (FlappingIndex c) (FlappingCurrent c) (Flapping c)
    (FlappingLastChange c) (FlappingThresholdLow c) (FlappingThresholdHigh c)
    (EnableFlapping c).

Definition SetFlappingIndex (v : Z) (c : Checkable) : Checkable :=
  mkCheckable (FlappingBuffer c) v (FlappingCurrent c) (Flapping c)
    (FlappingLastChange c) (FlappingThresholdLow c) (FlappingThresholdHigh c)
    (EnableFlapping c).

Definition SetFlappingCurrent (v : float) (c : Checkable) : Checkable :=
  mkCheckable (FlappingBuffer c) (FlappingIndex c) v (Flapping c)
    (FlappingLastChange c) (FlappingThresholdLow c) (FlappingThresholdHigh c)
    (EnableFlapping c).

Definition SetFlapping (v : bool) (c : Checkable) : Checkable :=
  mkCheckable (FlappingBuffer c) (FlappingIndex c) (FlappingCurrent c) v
    (FlappingLastChange c) (FlappingThresholdLow c) (FlappingThresholdHigh c)
    (EnableFlapping c).

Definition SetFlappingLastChange (v : float) (c : Checkable) : Checkable :=
  mkCheckable (FlappingBuffer c) (FlappingIndex c) (FlappingCurrent c)
    (Flapping c) v (FlappingThresholdLow c) (FlappingThresholdHigh c)
    (EnableFlapping c).

(** [std::bitset<20>]: construction from an integer keeps the low 20 bits. *)
Definition bitset20 (v : Z) : Z := Z.land v (Z.ones 20).

(** [bitset::set(pos, val)] throws [std::out_of_range] when [pos] is not a
    slot; an [int] below zero is a huge [size_t]. *)
Definition bitset_set (b pos : Z) (val : bool) : option Z :=
  if (0 <=? pos) && (pos <? 20)
  then Some (if val then Z.lor b (Z.shiftl 1 pos) else Z.ldiff b (Z.shiftl 1 pos))
  else None.

Definition bitset_test (b pos : Z) : bool := Z.testbit b pos.

(** The conversion of the loop counter to [double]. *)
Definition double_of_int (i : Z) : float := PrimFloat.of_uint63 (Uint63.of_Z i).

(** The values the counter of [for (int i = 0; i < 20; i++)] takes. *)
Definition loop_counter : list Z := map Z.of_nat (seq 0 20).

(** One turn of the loop that computes the weighted total. *)
Definition weigh_slot (stateChangeBuf oldestIndex : Z) (stateChanges : float) (i : Z) : float :=
  let index := Z.rem (oldestIndex + i) 20 in
  if bitset_test stateChangeBuf index
  then (stateChanges + (0.8 + 0.02 * double_of_int i))%float
  else stateChanges.

Definition weighted_total (stateChangeBuf oldestIndex : Z) : float :=
  fold_left (weigh_slot stateChangeBuf oldestIndex) loop_counter 0%float.

(** [Checkable::UpdateFlappingStatus]; [now] is what [Utility::GetTime()]
    returns.  [None] is the [std::out_of_range] of [bitset::set], thrown
    before anything is stored. *)
Definition UpdateFlappingStatus (now : float) (stateChange : bool) (c : Checkable)
  : option Checkable :=
  let flappingBuffer := FlappingBuffer c in
  let stateChangeBuf := bitset20 flappingBuffer in
  let oldestIndex := FlappingIndex c in
  match bitset_set stateChangeBuf oldestIndex stateChange with
  | None => None
  | Some stateChangeBuf =>
    let oldestIndex := Z.rem (oldestIndex + 1) 20 in
    let stateChanges := weighted_total stateChangeBuf oldestIndex in
    let flappingValue := (100.0 * stateChanges / 20.0)%float in
    let flapping :=
      if Flapping c
      then PrimFloat.ltb (FlappingThresholdLow c) flappingValue
      else PrimFloat.ltb (FlappingThresholdHigh c) flappingValue in
    let c := SetFlappingBuffer stateChangeBuf c in
    let c := SetFlappingIndex oldestIndex c in
    let c := SetFlappingCurrent flappingValue c in
    let c := SetFlapping flapping c in
    Some (if negb (Bool.eqb flapping (Flapping c))
          then SetFlappingLastChange now c
          else c)
  end.

(** [Checkable::IsFlapping]; [globalEnable] is
    [IcingaApplication::GetInstance()->GetEnableFlapping()]. *)
Definition IsFlapping (globalEnable : bool) (c : Checkable) : bool :=
  if negb (EnableFlapping c) || negb globalEnable then false else Flapping c.

(** *** The history the specification speaks of *)

(** The definitions of this part follow the words of the specification and
    use nothing of the code above. *)

(** The ages of the 20 slots, oldest first. *)
Definition ages : list Z :=
  [0; 1; 2; 3; 4; 5; 6; 7; 8; 9; 10; 11; 12; 13; 14; 15; 16; 17; 18; 19].

(** The slot of age [i], counted from the slot that is overwritten next
    (age 0, the oldest) to the slot written last (age 19). *)
Definition slot_of_age (buf next i : Z) : bool := Z.testbit buf ((next + i) mod 20).

(** The 20 slots, oldest first. *)
Definition history (buf next : Z) : list bool := map (slot_of_age buf next) ages.

(** An age as a binary64 number: the integer, rounded as IEEE 754 rounds
    it (no age needs rounding). *)
Definition age_as_double (i : Z) : float := SF2Prim (binary_normalize prec emax i 0 false).

(** A set slot of age [i] weighs [0.8 + 0.02 * i]. *)
Definition slot_weight (i : Z) : float := (0.8 + 0.02 * age_as_double i)%float.

(** The weights of the set slots, added up from the oldest slot on. *)
Fixpoint weighted_sum_from (i : Z) (slots : list bool) (acc : float) : float :=
  match slots with
  | [] => acc
  | b :: rest =>
    weighted_sum_from (i + 1) rest (if b then (acc + slot_weight i)%float else acc)
  end.

Definition weighted_sum (slots : list bool) : float := weighted_sum_from 0 slots 0%float.

Definition flap_percentage (slots : list bool) : float :=
  (100 * weighted_sum slots / 20)%float.

End Flapping.

(** Checkables the statements below are evaluated on; the thresholds 25 and
    30 are the defaults of the configuration. *)
Module FlappingExamples.
Import Flapping.

(** Not flapping, every slot of the history set, nothing recorded yet. *)
Definition calm_full_history : Checkable :=
  mkCheckable (2 ^ 20 - 1) 0 0%float false 0%float 25%float 30%float true.

(** Flapping, with slots 7, 9, 11, 13 and 15 set and slot 0 written next:
    after the update these have ages 6, 8, 10, 12 and 14. *)
Definition flapping_five_changes : Checkable :=
  mkCheckable 43648 0 30.5%float true 0%float 25%float 30%float true.

(** Not flapping, same history, one more state change to come. *)
Definition calm_five_changes : Checkable :=
  mkCheckable 43648 0 25%float false 0%float 25%float 30%float true.

End FlappingExamples.

(** ** Values, dictionaries and exceptions *)

Module Base.

(** The exceptions the code throws.  [null_dereference] stands for the fault
    of iterating a null [Dictionary::Ptr]. *)
Inductive exception :=
| invalid_argument (what : string)
| bad_cast
| null_dereference.

(** The outcome of a call: a value, or an exception that leaves the call. *)
Inductive Result (A : Type) :=
| Return (a : A)
| Throw (e : exception).
Arguments Return {A} a.
Arguments Throw {A} e.

Definition bind {A B : Type} (r : Result A) (k : A -> Result B) : Result B :=
  match r with
  | Return a => k a
  | Throw e => Throw e
  end.

Notation "x <- r ;; k" := (bind r (fun x => k))
  (at level 100, r at level 99, right associativity).

(** [Value]: empty, a scalar (a number or a string, held by its text), a
    [Dictionary] object, or an object of another type. *)
#[warnings="-register-all"]
Inductive Value :=
| Empty
| Scalar (text : string)
| DictionaryValue (entries : list (string * Value))
| ObjectValue.

(** A [Dictionary], as the list of its entries in iteration order. *)
Definition Dictionary : Type := list (string * Value).

Definition IsEmpty (v : Value) : bool :=
  match v with Empty => true | _ => false end.

Definition IsObject (v : Value) : bool :=
  match v with DictionaryValue _ | ObjectValue => true | _ => false end.

Definition IsScalar (v : Value) : bool := negb (IsEmpty v) && negb (IsObject v).

(** The conversion of a [Value] to [String].  The class is not under src/:
    an empty value converts to the empty string and a scalar to its text;
    an object has no text, and the model lets its conversion fail. *)
Definition Value_to_String (v : Value) : Result string :=
  match v with
  | Empty => Return ""%string
  | Scalar text => Return text
  | DictionaryValue _ | ObjectValue => Throw bad_cast
  end.

(** [Dictionary::Get]: the value under the key, [Empty] without one. *)
Fixpoint Get (d : Dictionary) (key : string) : Value :=
  match d with
  | [] => Empty
  | (k, v) :: rest => if String.eqb k key then v else Get rest key
  end.

Fixpoint Contains {A : Type} (d : list (string * A)) (key : string) : bool :=
  match d with
  | [] => false
  | (k, _) :: rest => String.eqb k key || Contains rest key
  end.

(** [Dictionary::Set]: the entry under the key is replaced, a new key gets a
    new entry. *)
Fixpoint Set_ {A : Type} (d : list (string * A)) (key : string) (v : A) : list (string * A) :=
  match d with
  | [] => [(key, v)]
  | (k, w) :: rest => if String.eqb k key then (k, v) :: rest else (k, w) :: Set_ rest key v
  end.

End Base.

(** ** Hosts, services and the registry of objects *)

Module Hosts.
Import Base.

(** Modelled from the spec: the enumerations of the states of a service and
    of the two types of state are declared outside src/.  host.cpp names
    [StateOK], [StateWarning] and [StateTypeSoft]; the specification speaks
    of OK, Warning and Critical states and of soft and hard ones. *)
Inductive ServiceState := StateOK | StateWarning | StateCritical | StateUnknown | StateUncheckable.
Inductive ServiceStateType := StateTypeSoft | StateTypeHard.

Definition ServiceState_eqb (a b : ServiceState) : bool :=
  match a, b with
  | StateOK, StateOK | StateWarning, StateWarning | StateCritical, StateCritical
  | StateUnknown, StateUnknown | StateUncheckable, StateUncheckable => true
  | _, _ => false
  end.

Definition ServiceStateType_eqb (a b : ServiceStateType) : bool :=
  match a, b with
  | StateTypeSoft, StateTypeSoft | StateTypeHard, StateTypeHard => true
  | _, _ => false
  end.

(** What the code reads of a [Service]. *)
Record Service := mkService {
  service_name : string;                      (* GetName() *)
  service_host_name : string;                 (* the "host_name" attribute *)
  LastCheckResult : option Dictionary;        (* a null pointer before the first check *)
  StateType : ServiceStateType;
  State : ServiceState
}.

(** Modelled from the spec: [AcknowledgementType] is an enumeration declared
    outside src/, with the values none, normal and sticky of section 3; the
    stored attribute is its integer, and the code tests it against
    [AcknowledgementNone] only. *)
Definition AcknowledgementType : Type := Z.
Definition AcknowledgementNone : AcknowledgementType := 0.
Definition AcknowledgementNormal : AcknowledgementType := 1.
Definition AcknowledgementSticky : AcknowledgementType := 2.

(** The two operators host.cpp hands to [AddExpression], and an expression of
    a configuration item as the three arguments of that call. *)
Inductive ExpressionOperator := OperatorSet | OperatorPlus.

Record Expression := mkExpression {
  expr_key : string;
  expr_op : ExpressionOperator;
  expr_value : Value
}.

(** A [ConfigItem], and a [ConfigItemBuilder] while it is built: [Compile]
    hands out what the builder has collected. *)
Record ConfigItem := mkConfigItem {
  item_type : string;
  item_name : string;
  item_parents : list string;
  item_expressions : list Expression;
  item_debuginfo : string
}.

(** The attributes of a [Host].  An attribute that the code converts to a
    [Dictionary::Ptr] is [None] when the pointer is null; the two
    acknowledgement attributes are [None] when their [Value] is empty.
    [properties] holds the attributes read as plain values ("macros",
    "check_interval", ...), and [modified] the names of the attributes
    written through [Set], oldest first. *)
Record Host := mkHost {
  host_name : string;                                  (* GetName() *)
  properties : Dictionary;
  hostdependencies : option Dictionary;
  servicedependencies : option Dictionary;
  hostchecks : option Dictionary;
  services : option Dictionary;
  convenience_services : option (list (string * option ConfigItem));
  acknowledgement : option Z;
  acknowledgement_expiry : option float;
  modified : list string
}.

Definition GetName (h : Host) : string := host_name h.
Definition GetHostDependencies (h : Host) : option Dictionary := hostdependencies h.
Definition GetServiceDependencies (h : Host) : option Dictionary := servicedependencies h.

(** [DynamicObject::GetObject(type, name)] for the two types of objects. *)
Record Registry := mkRegistry {
  host_objects : gmap string Host;
  service_objects : gmap string Service
}.

(** [Host::Exists] and [Host::GetByName]. *)
Definition Host_Exists (reg : Registry) (name : string) : bool :=
  match host_objects reg !! name with Some _ => true | None => false end.

Definition Host_GetByName (reg : Registry) (name : string) : Result Host :=
  match host_objects reg !! name with
  | None => Throw (invalid_argument ("Host '" +:+ name +:+ "' does not exist."))
  | Some configObject => Return configObject
  end.

(** Modelled from the spec: [Service::Exists] and [Service::GetByName] are
    not under src/; by section 4.2 [Exists] tells whether the name is
    registered and [GetByName] fails with NotFound when it is not, as
    [Host::GetByName] does. *)
Definition Service_Exists (reg : Registry) (name : string) : bool :=
  match service_objects reg !! name with Some _ => true | None => false end.

Definition Service_GetByName (reg : Registry) (name : string) : Result Service :=
  match service_objects reg !! name with
  | None => Throw (invalid_argument ("Service '" +:+ name +:+ "' does not exist."))
  | Some configObject => Return configObject
  end.

(** [Host::ResolveService]. *)
Definition ResolveService (reg : Registry) (h : Host) (name : string) : Result Service :=
  let combinedName := GetName h +:+ "-" +:+ name in
  if Service_Exists reg combinedName
  then Service_GetByName reg combinedName
  else Service_GetByName reg name.

(** [std::set<Host::Ptr>] and [std::set<Service::Ptr>]: a registered object
    is known by its name, so a set of pointers is a list of objects without
    two of the same name.  The code iterates a set in the order of the
    addresses; the list keeps the order of insertion. *)
Definition host_set_insert (p : Host) (s : list Host) : list Host :=
  if existsb (fun q => String.eqb (GetName q) (GetName p)) s then s else s ++ [p].

Definition service_set_insert (p : Service) (s : list Service) : list Service :=
  if existsb (fun q => String.eqb (service_name q) (service_name p)) s then s else s ++ [p].

(** The loop of [Host::GetParentHosts]. *)
Fixpoint GetParentHosts_loop (reg : Registry) (h : Host) (dependencies : Dictionary)
  (parents : list Host) : Result (list Host) :=
  match dependencies with
  | [] => Return parents
  | (key, _) :: rest =>
    if String.eqb key (GetName h)
    then GetParentHosts_loop reg h rest parents
    else
      parent <- Host_GetByName reg key ;;
      GetParentHosts_loop reg h rest (host_set_insert parent parents)
  end.

Definition GetParentHosts (reg : Registry) (h : Host) : Result (list Host) :=
  match GetHostDependencies h with
  | Some dependencies => GetParentHosts_loop reg h dependencies []
  | None => Return []
  end.

(** The loop of [Host::GetParentServices]. *)
Fixpoint GetParentServices_loop (reg : Registry) (h : Host) (dependencies : Dictionary)
  (parents : list Service) : Result (list Service) :=
  match dependencies with
  | [] => Return parents
  | (key, _) :: rest =>
    parent <- ResolveService reg h key ;;
    GetParentServices_loop reg h rest (service_set_insert parent parents)
  end.

Definition GetParentServices (reg : Registry) (h : Host) : Result (list Service) :=
  match GetServiceDependencies h with
  | Some dependencies => GetParentServices_loop reg h dependencies []
  | None => Return []
  end.

(** *** Reachability *)

Section Reachability.

(** [Service::ResolveDependencies] is not under src/: the code of
    [Host::IsUp] is read for any such function. *)
Variable ResolveDependencies : Registry -> Host -> Dictionary -> Result Dictionary.

(** The loop of [Host::IsUp] over the resolved host checks. *)
Fixpoint IsUp_loop (reg : Registry) (hostchecks : Dictionary) : Result bool :=
  match hostchecks with
  | [] => Return true
  | (_, hostcheck) :: rest =>
    name <- Value_to_String hostcheck ;;
    service <- Service_GetByName reg name ;;
    if negb (ServiceState_eqb (State service) StateOK)
       && negb (ServiceState_eqb (State service) StateWarning)
    then Return false
    else IsUp_loop reg rest
  end.

Definition IsUp (reg : Registry) (h : Host) : Result bool :=
  match hostchecks h with
  | Some hostchecks =>
    hostchecks <- ResolveDependencies reg h hostchecks ;;
    IsUp_loop reg hostchecks
  | None => Return true
  end.

(** The first loop of [Host::IsReachable]: [false] when the loop returns
    false, [true] when it runs to its end. *)
Fixpoint IsReachable_services (parents : list Service) : bool :=
  match parents with
  | [] => true
  | service :: rest =>
    match LastCheckResult service with
    | None => IsReachable_services rest                     (* pending *)
    | Some _ =>
      if ServiceStateType_eqb (StateType service) StateTypeSoft
      then IsReachable_services rest
      else if ServiceState_eqb (State service) StateOK
              || ServiceState_eqb (State service) StateWarning
      then IsReachable_services rest
      else false
    end
  end.

(** The second loop. *)
Fixpoint IsReachable_hosts (reg : Registry) (parents : list Host) : Result bool :=
  match parents with
  | [] => Return true
  | host :: rest =>
    up <- IsUp reg host ;;
    if up then IsReachable_hosts reg rest else Return false
  end.

Definition IsReachable (reg : Registry) (h : Host) : Result bool :=
  parentServices <- GetParentServices reg h ;;
  if IsReachable_services parentServices
  then
    parentHosts <- GetParentHosts reg h ;;
    IsReachable_hosts reg parentHosts
  else Return false.

End Reachability.

(** *** Acknowledgements *)

(** [Set("acknowledgement", v)] and [Set("acknowledgement_expiry", v)]. *)
Definition Set_acknowledgement (v : Z) (h : Host) : Host :=
  mkHost (host_name h) (properties h) (hostdependencies h) (servicedependencies h)
    (hostchecks h) (services h) (convenience_services h)
    (Some v) (acknowledgement_expiry h) (modified h ++ ["acknowledgement"%string]).

Definition Set_acknowledgement_expiry (v : float) (h : Host) : Host :=
  mkHost (host_name h) (properties h) (hostdependencies h) (servicedependencies h)
    (hostchecks h) (services h) (convenience_services h)
    (acknowledgement h) (Some v) (modified h ++ ["acknowledgement_expiry"%string]).

Definition SetAcknowledgement (acknowledgement : AcknowledgementType) (h : Host) : Host :=
  Set_acknowledgement acknowledgement h.

Definition GetAcknowledgementExpiry (h : Host) : float :=
  match acknowledgement_expiry h with
  | None => 0%float
  | Some value => value
  end.

Definition SetAcknowledgementExpiry (timestamp : float) (h : Host) : Host :=
  Set_acknowledgement_expiry timestamp h.

(** [Host::GetAcknowledgement]: the value returned and the host after the
    call; [now] is what [Utility::GetTime()] returns. *)
Definition GetAcknowledgement (now : float) (h : Host) : AcknowledgementType * Host :=
  match acknowledgement h with
  | None => (AcknowledgementNone, h)
  | Some ivalue =>
    let avalue : AcknowledgementType := ivalue in
    if negb (avalue =? AcknowledgementNone)
    then
      let expiry := GetAcknowledgementExpiry h in
      if negb (PrimFloat.eqb expiry 0%float) && PrimFloat.ltb expiry now
      then
        let avalue := AcknowledgementNone in
        let h := SetAcknowledgement avalue h in
        let h := SetAcknowledgementExpiry 0%float h in
        (avalue, h)
      else (avalue, h)
    else (avalue, h)
  end.

(** *** The notions the statements about hosts use *)

(** A parent service that stands in the way: it has a check result, its
    state is hard, and its state is neither OK nor Warning. *)
Definition blocking (s : Service) : Prop :=
  LastCheckResult s <> None /\ StateType s = StateTypeHard
  /\ State s <> StateOK /\ State s <> StateWarning.

(** The entries of a dependency map that name another host. *)
Definition not_own_name (h : Host) (entry : string * Value) : bool :=
  negb (String.eqb entry.1 (GetName h)).

(** The expiry is set and has passed: [expiry != 0 && expiry < now]. *)
Definition expired (expiry now : float) : bool :=
  negb (PrimFloat.eqb expiry 0%float) && PrimFloat.ltb expiry now.

(** The host after the acknowledgement has been cleared. *)
Definition cleared (h : Host) : Host :=
  SetAcknowledgementExpiry 0%float (SetAcknowledgement AcknowledgementNone h).

End Hosts.

(** ** The cache of the services of each host *)

Module ServicesCache.
Import Base Hosts.

(** A [Service::Ptr] is the address of a live object; a [Service::WeakPtr]
    is an address whose object may be gone. *)
Definition address : Type := positive.

Record Objects := mkObjects {
  alive : gmap address Service;                 (* the Service objects that exist *)
  registered : gmap string address;             (* GetObjects() of the type "Service" *)
  next_address : address;                       (* where the next object is allocated *)
  m_ServicesCache : gmap string (list address);
  m_ServicesCacheValid : bool
}.

(** The static initialisers of host.cpp: an empty cache that counts as valid. *)
Definition initial : Objects := mkObjects ∅ ∅ 1%positive ∅ true.

(** [weak_ptr::lock]. *)
Definition lock (st : Objects) (svc : address) : option address :=
  match alive st !! svc with
  | Some _ => Some svc
  | None => None
  end.

(** [Host::InvalidateServicesCache]. *)
Definition InvalidateServicesCache (st : Objects) : Objects :=
  mkObjects (alive st) (registered st) (next_address st) ∅ false.

(** Modelled from the spec: registration and removal of a service are not
    under src/.  By section 4.2 [Register] enters the object under its name
    and [Unregister] removes the name; the registry owns its objects, so an
    object that leaves it (removed, or replaced under its name) is
    destroyed.  By the same section each of the two calls triggers the
    invalidation of the cache before it returns. *)
Definition Register (s : Service) (st : Objects) : Objects :=
  let a := next_address st in
  let kept :=
    match registered st !! service_name s with
    | Some old => delete old (alive st)
    | None => alive st
    end in
  InvalidateServicesCache
    (mkObjects (<[a := s]> kept) (<[service_name s := a]> (registered st))
       (Pos.succ a) (m_ServicesCache st) (m_ServicesCacheValid st)).

Definition Unregister (name : string) (st : Objects) : Objects :=
  InvalidateServicesCache
    match registered st !! name with
    | Some a =>
      mkObjects (delete a (alive st)) (delete name (registered st))
        (next_address st) (m_ServicesCache st) (m_ServicesCacheValid st)
    | None => st
    end.

(** Modelled from the spec: [Service::GetHost] is not under src/; by
    section 4.3 the rebuild groups the services by their declared host name,
    which is what [service->GetHost()->GetName()] stands for here. *)
Definition GetHost_GetName (service : Service) : string := service_host_name service.

(** [m_ServicesCache[key].push_back(service)]. *)
Definition cache_push_back (key : string) (service : address)
  (cache : gmap string (list address)) : gmap string (list address) :=
  <[key := default [] (cache !! key) ++ [service]]> cache.

(** One turn of the loop of [Host::ValidateServicesCache]; the registry
    holds a pointer to a live object. *)
Definition cache_service (st : Objects) (cache : gmap string (list address))
  (entry : string * address) : gmap string (list address) :=
  match alive st !! entry.2 with
  | Some service => cache_push_back (GetHost_GetName service) entry.2 cache
  | None => cache
  end.

(** [Host::ValidateServicesCache]. *)
Definition ValidateServicesCache (st : Objects) : Objects :=
  if m_ServicesCacheValid st then st
  else
    let cache := fold_left (cache_service st) (map_to_list (registered st)) ∅ in
    mkObjects (alive st) (registered st) (next_address st) cache true.

(** [Host::GetServices] for the host of the given name: the set returned and
    the state after the call ([operator[]] enters a missing key with an
    empty vector). *)
Definition GetServices (name : string) (st : Objects) : gset address * Objects :=
  let st := ValidateServicesCache st in
  let entries := default [] (m_ServicesCache st !! name) in
  let st := mkObjects (alive st) (registered st) (next_address st)
              (<[name := entries]> (m_ServicesCache st)) (m_ServicesCacheValid st) in
  let services :=
    fold_left (fun (services : gset address) svc =>
                 match lock st svc with
                 | None => services
                 | Some service => {[service]} ∪ services
                 end) entries ∅ in
  (services, st).

(** What may happen to the registry and the cache, one step at a time. *)
Inductive operation :=
| DoRegister (s : Service)
| DoUnregister (name : string)
| DoInvalidate
| DoGetServices (host : string).

Definition step (st : Objects) (op : operation) : Objects :=
  match op with
  | DoRegister s => Register s st
  | DoUnregister name => Unregister name st
  | DoInvalidate => InvalidateServicesCache st
  | DoGetServices host => (GetServices host st).2
  end.

Definition run (ops : list operation) (st : Objects) : Objects := fold_left step ops st.

(** The live services that declare the host [name]. *)
Definition services_of_host (name : string) (st : Objects) (a : address) : Prop :=
  exists s, registered st !! service_name s = Some a
            /\ alive st !! a = Some s
            /\ service_host_name s = name.

(** *** The invariant of the registry *)

(** The registry points at live objects that carry the name they are
    registered under, and no object lives at an address still to be handed
    out. *)
Definition consistent (st : Objects) : Prop :=
  (forall name a, registered st !! name = Some a ->
     exists s, alive st !! a = Some s /\ service_name s = name)
  /\ (forall a s, alive st !! a = Some s -> (a < next_address st)%positive).

End ServicesCache.

(** ** The handlers of the configuration compiler's notifications *)

Module ConfigBridge.
Import Base Hosts.

(** What a handler does to other objects, in the order in which it does it. *)
Inductive event :=
| Committed (name : string)                        (* serviceItem->Commit() *)
| Unregistered (name : string)                     (* service->Unregister() *)
| Stored (host : string) (names : list string).    (* host->Set("convenience_services", ...) *)

Record Config := mkConfig {
  objects : Registry;                                 (* the Host and Service objects *)
  items : gmap (string * string) ConfigItem;          (* ConfigItem::GetObject(type, name) *)
  errors : list (bool * string);                      (* ConfigCompilerContext::AddError *)
  trace : list event
}.

(** Modelled from the spec: the evaluation of the expressions of an item is
    not under src/.  The value an item gives an attribute is the value of
    its last expression for that key ([Empty] without one). *)
Definition expression_value (item : ConfigItem) (key : string) : Value :=
  fold_left (fun value e => if String.eqb (expr_key e) key then expr_value e else value)
    (item_expressions item) Empty.

(** Modelled from the spec: the entity of a newly committed service item.
    By sections 3 and 4.6 it carries the name of the item and declares the
    host that the "host_name" expression names; it has no check result, and
    its state is taken to be unknown and soft until the first check. *)
Definition new_service (item : ConfigItem) : Service :=
  mkService (item_name item)
    (match expression_value item "host_name" with
     | Scalar text => text
     | _ => ""%string
     end)
    None StateTypeSoft StateUnknown.

(** Modelled from the spec: by sections 2, 4.6 and 8 the service of a
    committed item is registered as an entity, under the name of the item,
    and leaves the registry when the item is unregistered.  The objects of
    items of other types are not followed: the handlers commit and
    unregister the items of services only. *)
Definition create_object (item : ConfigItem) (reg : Registry) : Registry :=
  if String.eqb (item_type item) "Service"
  then mkRegistry (host_objects reg)
         (<[item_name item := new_service item]> (service_objects reg))
  else reg.

Definition remove_object (item : ConfigItem) (reg : Registry) : Registry :=
  if String.eqb (item_type item) "Service"
  then mkRegistry (host_objects reg) (delete (item_name item) (service_objects reg))
  else reg.

(** Modelled from the spec: [ConfigItem::Commit] and [ConfigItem::Unregister]
    are not under src/.  By section 4.2 committing registers the item under
    its type and name, with the object it describes, and unregistering
    removes the entry and the object. *)
Definition Commit (item : ConfigItem) (cfg : Config) : Config :=
  mkConfig (create_object item (objects cfg))
    (<[(item_type item, item_name item) := item]> (items cfg))
    (errors cfg) (trace cfg ++ [Committed (item_name item)]).

Definition Unregister (item : ConfigItem) (cfg : Config) : Config :=
  mkConfig (remove_object item (objects cfg))
    (delete (item_type item, item_name item) (items cfg))
    (errors cfg) (trace cfg ++ [Unregistered (item_name item)]).

(** [ConfigCompilerContext::GetContext()->AddError(warning, message)]. *)
Definition AddError (warning : bool) (message : string) (cfg : Config) : Config :=
  mkConfig (objects cfg) (items cfg) (errors cfg ++ [(warning, message)]) (trace cfg).

(** The [ConfigItemBuilder]. *)
Definition new_builder (debuginfo : string) : ConfigItem :=
  mkConfigItem "" "" [] [] debuginfo.

Definition SetType (type : string) (b : ConfigItem) : ConfigItem :=
  mkConfigItem type (item_name b) (item_parents b) (item_expressions b) (item_debuginfo b).

Definition SetName (name : string) (b : ConfigItem) : ConfigItem :=
  mkConfigItem (item_type b) name (item_parents b) (item_expressions b) (item_debuginfo b).

Definition AddParent (parent : string) (b : ConfigItem) : ConfigItem :=
  mkConfigItem (item_type b) (item_name b) (item_parents b ++ [parent])
    (item_expressions b) (item_debuginfo b).

Definition AddExpression (key : string) (op : ExpressionOperator) (value : Value)
  (b : ConfigItem) : ConfigItem :=
  mkConfigItem (item_type b) (item_name b) (item_parents b)
    (item_expressions b ++ [mkExpression key op value]) (item_debuginfo b).

Definition Compile (b : ConfigItem) : ConfigItem := b.

(** [CopyServiceAttributes]; [get] is the [Get] of the host or of the
    dictionary that describes the service. *)
Definition copy_attribute (get : string -> Value) (key : string) (op : ExpressionOperator)
  (b : ConfigItem) : ConfigItem :=
  let value := get key in
  if negb (IsEmpty value) then AddExpression key op value b else b.

Definition CopyServiceAttributes (get : string -> Value) (builder : ConfigItem) : ConfigItem :=
  let builder := copy_attribute get "macros" OperatorPlus builder in
  let builder := copy_attribute get "check_interval" OperatorSet builder in
  let builder := copy_attribute get "retry_interval" OperatorSet builder in
  let builder := copy_attribute get "servicegroups" OperatorPlus builder in
  copy_attribute get "checkers" OperatorSet builder.

(** [host->Get(key)] for the attributes read as plain values. *)
Definition Host_Get (h : Host) (key : string) : Value := Get (properties h) key.

(** The body of the loop of [Host::ObjectCommittedHandler] up to
    [builder->Compile()]: the item of one inline service. *)
Definition build_service (item : ConfigItem) (host : Host) (svcname : string)
  (svcdesc : Value) : Result ConfigItem :=
  let name := item_name item +:+ "-" +:+ svcname in
  let builder := new_builder (item_debuginfo item) in
  let builder := SetType "Service" builder in
  let builder := SetName name builder in
  let builder := AddExpression "host_name" OperatorSet (Scalar (item_name item)) builder in
  let builder := AddExpression "alias" OperatorSet (Scalar svcname) builder in
  let builder := CopyServiceAttributes (Host_Get host) builder in
  builder <-
    (if IsScalar svcdesc
     then
       parent <- Value_to_String svcdesc ;;
       Return (AddParent parent builder)
     else
       match svcdesc with
       | DictionaryValue service =>
         parent <- Value_to_String (Get service "service") ;;
         let parent := if String.eqb parent "" then svcname else parent in
         let builder := AddParent parent builder in
         Return (CopyServiceAttributes (Get service) builder)
       | _ =>
         Throw (invalid_argument "Service description must be either a string or a dictionary.")
       end) ;;
  Return (Compile builder).

(** The loop over the inline services: each item is committed and entered in
    [newServices].  An exception leaves the loop with what has been done. *)
Fixpoint build_services (item : ConfigItem) (host : Host) (serviceDescs : Dictionary)
  (newServices : list (string * option ConfigItem)) (cfg : Config)
  : Result (list (string * option ConfigItem)) * Config :=
  match serviceDescs with
  | [] => (Return newServices, cfg)
  | (svcname, svcdesc) :: rest =>
    match build_service item host svcname svcdesc with
    | Throw e => (Throw e, cfg)
    | Return serviceItem =>
      let cfg := Commit serviceItem cfg in
      build_services item host rest
        (Set_ newServices (item_name item +:+ "-" +:+ svcname) (Some serviceItem)) cfg
    end
  end.

(** The loop over the old services. *)
Fixpoint unregister_old (oldServices newServices : list (string * option ConfigItem))
  (cfg : Config) : Config :=
  match oldServices with
  | [] => cfg
  | (_, None) :: rest => unregister_old rest newServices cfg
  | (_, Some service) :: rest =>
    if negb (Contains newServices (item_name service))
    then unregister_old rest newServices (Unregister service cfg)
    else unregister_old rest newServices cfg
  end.

(** [host->Set("convenience_services", newServices)]. *)
Definition Set_convenience_services (v : list (string * option ConfigItem)) (h : Host) : Host :=
  mkHost (host_name h) (properties h) (hostdependencies h) (servicedependencies h)
    (hostchecks h) (services h) (Some v)
    (acknowledgement h) (acknowledgement_expiry h)
    (modified h ++ ["convenience_services"%string]).

Definition store_services (name : string) (host : Host)
  (newServices : list (string * option ConfigItem)) (cfg : Config) : Config :=
  mkConfig
    (mkRegistry (<[name := Set_convenience_services newServices host]> (host_objects (objects cfg)))
       (service_objects (objects cfg)))
    (items cfg) (errors cfg) (trace cfg ++ [Stored name (map fst newServices)]).

(** [Host::ObjectCommittedHandler]: how the call ends, and the state it
    leaves. *)
Definition ObjectCommittedHandler (item : ConfigItem) (cfg : Config) : Result unit * Config :=
  if negb (String.eqb (item_type item) "Host") then (Return tt, cfg)
  else if negb (Host_Exists (objects cfg) (item_name item)) then (Return tt, cfg)
  else
    match Host_GetByName (objects cfg) (item_name item) with
    | Throw e => (Throw e, cfg)
    | Return host =>
      let oldServices := convenience_services host in
      let built :=
        match services host with
        | Some serviceDescs => build_services item host serviceDescs [] cfg
        | None => (Return [], cfg)
        end in
      match built with
      | (Throw e, cfg) => (Throw e, cfg)
      | (Return newServices, cfg) =>
        let cfg :=
          match oldServices with
          | Some oldServices => unregister_old oldServices newServices cfg
          | None => cfg
          end in
        (Return tt, store_services (item_name item) host newServices cfg)
      end
    end.

(** The loop of [Host::ValidateServiceDictionary]. *)
Fixpoint validate_services (location : string) (attrs : Dictionary) (cfg : Config)
  : Result unit * Config :=
  match attrs with
  | [] => (Return tt, cfg)
  | (key, value) :: rest =>
    let name : option (Result string) :=
      if IsScalar value then Some (Value_to_String value)
      else
        match value with
        | DictionaryValue serviceDesc =>
          if Contains serviceDesc "service"
          then Some (Value_to_String (Get serviceDesc "service"))
          else Some (Return key)
        | _ => None                                     (* continue *)
        end in
    match name with
    | None => validate_services location rest cfg
    | Some (Throw e) => (Throw e, cfg)
    | Some (Return name) =>
      match items cfg !! ("Service"%string, name) with
      | None =>
        validate_services location rest
          (AddError false ("Validation failed for " +:+ location +:+ ": Service '"
                           +:+ name +:+ "' not found.") cfg)
      | Some _ => validate_services location rest cfg
      end
    end
  end.

(** [Host::ValidateServiceDictionary]: the value handed to
    [task->FinishResult], or the exception, and the state after the call. *)
Definition ValidateServiceDictionary (arguments : list Value) (cfg : Config)
  : Result Value * Config :=
  if (length arguments <? 1)%nat
  then (Throw (invalid_argument "Missing argument: Location must be specified."), cfg)
  else if (length arguments <? 2)%nat
  then (Throw (invalid_argument "Missing argument: Attribute dictionary must be specified."), cfg)
  else
    match arguments with
    | location :: attrs :: _ =>
      match Value_to_String location with
      | Throw e => (Throw e, cfg)
      | Return location =>
        match attrs with
        | DictionaryValue attrs =>
          match validate_services location attrs cfg with
          | (Throw e, cfg) => (Throw e, cfg)
          | (Return _, cfg) => (Return Empty, cfg)
          end
        | Empty => (Throw null_dereference, cfg)
        | _ => (Throw bad_cast, cfg)
        end
      end
    | _ => (Throw null_dereference, cfg)
    end.

(** The configuration compiler commits a host anew with other inline
    services: the host object gets the new "services" attribute before the
    handler runs. *)
Definition with_services (serviceDescs : option Dictionary) (h : Host) : Host :=
  mkHost (host_name h) (properties h) (hostdependencies h) (servicedependencies h)
    (hostchecks h) serviceDescs (convenience_services h)
    (acknowledgement h) (acknowledgement_expiry h) (modified h).

Definition update_host_services (name : string) (serviceDescs : option Dictionary)
  (cfg : Config) : Config :=
  mkConfig
    (mkRegistry (alter (with_services serviceDescs) name (host_objects (objects cfg)))
       (service_objects (objects cfg)))
    (items cfg) (errors cfg) (trace cfg).

(** The name of the service synthesized for the inline service [svcname]. *)
Definition synthesized_name (host svcname : string) : string := host +:+ "-" +:+ svcname.

(** A description from which a service can be built: a scalar, or a
    dictionary whose "service" entry, if any, is not an object. *)
Definition well_formed_description (svcdesc : Value) : bool :=
  match svcdesc with
  | Scalar _ => true
  | DictionaryValue service => negb (IsObject (Get service "service"))
  | _ => false
  end.

(** *** The steps of a commit, for the statements about the handler *)

(** A description that is neither a scalar nor a dictionary: an empty value
    or an object of another type. *)
Definition neither_scalar_nor_dictionary (svcdesc : Value) : bool :=
  match svcdesc with
  | Empty | ObjectValue => true
  | _ => false
  end.

(** The item built for an inline service that is well formed. *)
Definition synthesized_item (item : ConfigItem) (host : Host) (desc : string * Value)
  : ConfigItem :=
  match build_service item host desc.1 desc.2 with
  | Return serviceItem => serviceItem
  | Throw _ => new_builder ""
  end.

(** What one turn of the loop enters in the new set. *)
Definition enter_service (item : ConfigItem) (host : Host)
  (newServices : list (string * option ConfigItem)) (desc : string * Value)
  : list (string * option ConfigItem) :=
  Set_ newServices (synthesized_name (item_name item) desc.1)
    (Some (synthesized_item item host desc)).

(** The new set of synthesized services. *)
Definition new_services (item : ConfigItem) (host : Host) (descs : Dictionary)
  : list (string * option ConfigItem) :=
  fold_left (enter_service item host) descs [].

(** The names of the services synthesized for the inline services. *)
Definition synthesized_names (item : ConfigItem) (descs : Dictionary) : list string :=
  map (synthesized_name (item_name item)) (map fst descs).

(** The old services whose names the new set does not hold, in the order of
    the old set. *)
Fixpoint absent_services (oldServices newServices : list (string * option ConfigItem))
  : list ConfigItem :=
  match oldServices with
  | [] => []
  | (_, None) :: rest => absent_services rest newServices
  | (_, Some service) :: rest =>
    if negb (Contains newServices (item_name service))
    then service :: absent_services rest newServices
    else absent_services rest newServices
  end.

(** Every inline service of the host can be built. *)
Definition all_well_formed (descs : Dictionary) : Prop :=
  Forall (fun desc => well_formed_description desc.2 = true) descs.

(** Every entry of the new set holds a service item under the item's name. *)
Definition owned (entries : list (string * option ConfigItem)) : Prop :=
  forall k v, In (k, v) entries ->
    exists it, v = Some it /\ item_type it = "Service"%string /\ item_name it = k.

(** The state a commit of the host leaves: the new services committed, then
    the absent old ones unregistered, then the new set stored. *)
Definition committed (item : ConfigItem) (host : Host) (cfg : Config) : Config :=
  let descs := default [] (services host) in
  let old := default [] (convenience_services host) in
  let new := new_services item host descs in
  store_services (item_name item) host new
    (fold_left (fun c service => Unregister service c) (absent_services old new)
       (fold_left (fun c desc => Commit (synthesized_item item host desc) c) descs cfg)).

End ConfigBridge.

(** ** A small installation *)

(** The host "web" depends on the host "router" and on its own service "db";
    the statements below are evaluated on it. *)
Module Installation.
Import Base Hosts ConfigBridge.
Local Open Scope string_scope.

Definition plain_host (name : string) : Host :=
  mkHost name [] None None None None None None None [].

Definition router : Host := plain_host "router".

Definition web : Host :=
  mkHost "web" [("check_interval", Scalar "60")]
    (Some [("router", Empty); ("web", Empty)])
    (Some [("db", Empty)])
    None
    (Some [("ping", Scalar "ping-template"); ("http", DictionaryValue [])])
    None None None [].

(** "web" with a dependency on a host that has been removed, listed before
    the dependency on "router". *)
Definition web_dangling : Host :=
  mkHost "web" [] (Some [("gone", Empty); ("router", Empty)])
    (Some [("gone", Empty); ("db", Empty)]) None None None None None [].

Definition db_service (type : ServiceStateType) (state : ServiceState) : Service :=
  mkService "web-db" "web" (Some []) type state.

Definition registry_with (db : Service) : Registry :=
  mkRegistry (<["router" := router]> (<["web" := web]> ∅)) (<["web-db" := db]> ∅).

(** Host checks are taken as they are written. *)
Definition no_resolution (reg : Registry) (h : Host) (d : Dictionary) : Result Dictionary :=
  Return d.

(** "web" with a sticky acknowledgement that expired at time 500, and with
    no acknowledgement but an expiry left over. *)
Definition web_acknowledged : Host :=
  SetAcknowledgementExpiry 500%float (SetAcknowledgement AcknowledgementSticky web).

Definition web_stale_expiry : Host :=
  mkHost "web" [] None None None None None None (Some 500%float) [].

(** The configuration with the host item of "web" committed and no service
    yet. *)
Definition web_item : ConfigItem := mkConfigItem "Host" "web" [] [] "hosts.conf:1".

Definition configuration (h : Host) : Config :=
  mkConfig (mkRegistry (<["web" := h]> ∅) ∅) ∅ [] [].

(** "web" with an inline service whose description is an object that is not
    a dictionary, after a description that is fine. *)
Definition web_malformed : Host :=
  with_services (Some [("ping", Scalar "ping-template"); ("odd", ObjectValue)]) web.

End Installation.

(** ** Runs of evaluations *)

Module FlappingRuns.
Import Flapping.

(** One call of [UpdateFlappingStatus] per evaluation, each with its time
    and its observation; the exception of a call ends the run. *)
Fixpoint UpdateFlappingStatus_each (evaluations : list (float * bool)) (c : Checkable)
  : option Checkable :=
  match evaluations with
  | [] => Some c
  | (now, stateChange) :: rest =>
    match UpdateFlappingStatus now stateChange c with
    | None => None
    | Some c => UpdateFlappingStatus_each rest c
    end
  end.

(** Whether a value is a percentage between 0 and 99. *)
Definition within_0_99 (v : float) : bool := PrimFloat.leb 0 v && PrimFloat.leb v 99.

(** Whether every way of setting the [n] slots of ages [i], [i + 1], ...
    gives a percentage between 0 and 99, when the weights of the set slots
    of lower age add up to [acc]. *)
Fixpoint percentages_within (n : nat) (i : Z) (acc : float) : bool :=
  match n with
  | O => within_0_99 (100 * acc / 20)%float
  | S n =>
    percentages_within n (i + 1) (acc + slot_weight i)%float
    && percentages_within n (i + 1) acc
  end.

(** The weights of the [n] slots of ages [i], [i + 1], ..., and the same
    check on weights that have been worked out once. *)
Fixpoint weights_from (n : nat) (i : Z) : list float :=
  match n with
  | O => []
  | S n => slot_weight i :: weights_from n (i + 1)
  end.

Fixpoint percentages_within_weights (weights : list float) (acc : float) : bool :=
  match weights with
  | [] => within_0_99 (100 * acc / 20)%float
  | weight :: rest =>
    percentages_within_weights rest (acc + weight)%float
    && percentages_within_weights rest acc
  end.

End FlappingRuns.

(** ** What a name resolves to *)

Module Resolution.
Import Base Hosts.

(** The service a name stands for on a host: the one registered as
    "<host>-<name>" if there is one, else the one registered as "<name>". *)
Definition resolved (reg : Registry) (h : Host) (name : string) : option Service :=
  match service_objects reg !! (GetName h +:+ "-" +:+ name) with
  | Some s => Some s
  | None => service_objects reg !! name
  end.

(** A service in a state other than OK and Warning. *)
Definition failing (s : Service) : Prop :=
  State s <> StateOK /\ State s <> StateWarning.

(** The service a host check names: the value, as a string, looked up by
    [Service::GetByName]. *)
Definition checked_service (reg : Registry) (hostcheck : Value) : option Service :=
  match Value_to_String hostcheck with
  | Return name => service_objects reg !! name
  | Throw _ => None
  end.

End Resolution.

(** ** Reading the cache *)

Module CacheReads.
Import Base Hosts ServicesCache.

(** A cache that counts as valid is up to date: under every host name, its
    entries whose object is alive are the live registered services that
    declare the host. *)
Definition up_to_date (st : Objects) : Prop :=
  m_ServicesCacheValid st = true ->
  forall host a,
    a ∈ default [] (m_ServicesCache st !! host) /\ is_Some (alive st !! a)
    <-> services_of_host host st a.

End CacheReads.

(** ** The removal of a host and the validation of service references *)

Module Removal.
Import Base Hosts ConfigBridge.

(** The loop of [Host::ObjectRemovedHandler]: every entry of the set is
    unregistered.  The loop does not test the pointer, and calling
    [Unregister] through a null one is a fault. *)
Fixpoint unregister_all (services : list (string * option ConfigItem)) (cfg : Config)
  : Result unit * Config :=
  match services with
  | [] => (Return tt, cfg)
  | (_, None) :: _ => (Throw null_dereference, cfg)
  | (_, Some service) :: rest => unregister_all rest (Unregister service cfg)
  end.

(** [Host::ObjectRemovedHandler].  [ConfigItem::GetDynamicObject] is not
    under src/: [host] is the object it returns for the item, [None] for a
    null pointer. *)
Definition ObjectRemovedHandler (item : ConfigItem) (host : option Host) (cfg : Config)
  : Result unit * Config :=
  if negb (String.eqb (item_type item) "Host") then (Return tt, cfg)
  else
    match host with
    | None => (Return tt, cfg)
    | Some host =>
      match convenience_services host with
      | None => (Return tt, cfg)
      | Some services => unregister_all services cfg
      end
    end.

(** The items of a set of services, in its order. *)
Fixpoint items_of (services : list (string * option ConfigItem)) : list ConfigItem :=
  match services with
  | [] => []
  | (_, Some service) :: rest => service :: items_of rest
  | (_, None) :: rest => items_of rest
  end.


(** The attributes [CopyServiceAttributes] copies. *)
Definition copied_keys : list string :=
  ["macros"; "check_interval"; "retry_interval"; "servicegroups"; "checkers"]%string.

(** The service an entry of the attribute map of
    [Host::ValidateServiceDictionary] refers to; [None] for an entry that is
    passed over. *)
Definition referenced_name (key : string) (value : Value) : option string :=
  match value with
  | Scalar text => Some text
  | DictionaryValue serviceDesc =>
    if Contains serviceDesc "service"
    then match Get serviceDesc "service" with
         | Scalar text => Some text
         | _ => Some ""%string
         end
    else Some key
  | _ => None
  end.

(** An entry whose name can be read: anything but a dictionary with an
    object under "service". *)
Definition readable (value : Value) : bool :=
  match value with
  | DictionaryValue serviceDesc => negb (IsObject (Get serviceDesc "service"))
  | _ => true
  end.

(** The names the entries refer to for which no service item is registered,
    in the order of the map. *)
Fixpoint unresolved (cfg : Config) (attrs : Dictionary) : list string :=
  match attrs with
  | [] => []
  | (key, value) :: rest =>
    match referenced_name key value with
    | Some name =>
      match items cfg !! ("Service"%string, name) with
      | None => name :: unresolved cfg rest
      | Some _ => unresolved cfg rest
      end
    | None => unresolved cfg rest
    end
  end.

Definition not_found (location name : string) : bool * string :=
  (false, "Validation failed for " +:+ location +:+ ": Service '" +:+ name +:+ "' not found.").

End Removal.

(** ** More of the small installation *)

Module MoreExamples.
Import Flapping Base Hosts ConfigBridge.
Local Open Scope string_scope.

(** Flapping, thresholds 20 and 30, the history of
    [FlappingExamples.flapping_five_changes]: the next percentage, 25, lies
    between the thresholds. *)
Definition flapping_in_band : Checkable :=
  mkCheckable 43648 0 30.5%float true 0%float 20%float 30%float true.

(** Twenty evaluations that all see a state change. *)
Definition twenty_changes : list (float * bool) := repeat (1000%float, true) 20.

(** A configuration in which no host object exists. *)
Definition no_objects : Config := mkConfig (mkRegistry ∅ ∅) ∅ [] [].

End MoreExamples.

(** * Theorems *)

(** ** Flapping detection *)

Section FlappingFacts.
Import Flapping.

Lemma bitset20_testbit (v k : Z) :
  0 <= k -> Z.testbit (bitset20 v) k = Z.testbit v k && (k <? 20).
Proof.
  intros Hk. unfold bitset20. rewrite Z.land_spec, Z.testbit_ones_nonneg by lia.
  destruct (Z.ltb_spec k 20); reflexivity.
Qed.

Lemma bitset20_range (v : Z) : 0 <= bitset20 v < 2 ^ 20.
Proof.
  unfold bitset20. rewrite Z.land_ones by lia. apply Z.mod_pos_bound. lia.
Qed.

Lemma bitset20_id (v : Z) : 0 <= v < 2 ^ 20 -> bitset20 v = v.
Proof.
  intros Hv. unfold bitset20. rewrite Z.land_ones by lia. apply Z.mod_small. exact Hv.
Qed.

Lemma bitset_set_testbit (b pos : Z) (val : bool) (b' : Z) (k : Z) :
  bitset_set b pos val = Some b' -> 0 <= k ->
  Z.testbit b' k = if k =? pos then val else Z.testbit b k.
Proof.
  unfold bitset_set. intros Hset Hk.
  destruct (Z.leb_spec 0 pos) as [Hp|]; [|discriminate].
  destruct (Z.ltb_spec pos 20); [|discriminate].
  simpl in Hset. injection Hset as <-.
  rewrite Z.shiftl_1_l.
  destruct val.
  - rewrite Z.lor_spec, Z.pow2_bits_eqb by lia.
    rewrite (Z.eqb_sym pos k). destruct (k =? pos); [apply orb_true_r | apply orb_false_r].
  - rewrite Z.ldiff_spec, Z.pow2_bits_eqb by lia.
    rewrite (Z.eqb_sym pos k). destruct (k =? pos); [apply andb_false_r | apply andb_true_r].
Qed.

Lemma bitset_set_range (b pos : Z) (val : bool) (b' : Z) :
  0 <= b < 2 ^ 20 -> bitset_set b pos val = Some b' -> 0 <= b' < 2 ^ 20.
Proof.
  intros Hb Hset.
  assert (Hlow : forall k, 20 <= k -> Z.testbit b' k = false).
  { intros k Hk. rewrite (bitset_set_testbit _ _ _ _ _ Hset) by lia.
    unfold bitset_set in Hset.
    destruct (Z.leb_spec 0 pos); [|discriminate].
    destruct (Z.ltb_spec pos 20); [|discriminate].
    destruct (Z.eqb_spec k pos); [lia|].
    rewrite <- (bitset20_id b Hb), bitset20_testbit by lia.
    destruct (Z.ltb_spec k 20); [lia | apply andb_false_r]. }
  assert (Hnn : 0 <= b').
  { unfold bitset_set in Hset.
    destruct ((0 <=? pos) && (pos <? 20)); [|discriminate].
    injection Hset as <-. destruct val.
    - apply Z.lor_nonneg. split; [lia | apply Z.shiftl_nonneg; lia].
    - apply Z.ldiff_nonneg. left. lia. }
  split; [exact Hnn|].
  destruct (Z.eq_dec b' 0) as [->|Hne]; [lia|].
  apply Z.log2_lt_pow2; [lia|].
  destruct (Z.lt_ge_cases (Z.log2 b') 20) as [|Hge]; [assumption|].
  specialize (Hlow _ Hge). rewrite Z.bit_log2 in Hlow by lia. discriminate.
Qed.

(** The conversion of the loop counter gives the age as a binary64 number. *)
Lemma double_of_int_age (i : nat) :
  (i < 20)%nat -> double_of_int (Z.of_nat i) = age_as_double (Z.of_nat i).
Proof.
  intros Hi. do 20 (destruct i as [|i]; [vm_compute; reflexivity|]). lia.
Qed.

(** The counter of the loop takes the 20 ages, oldest first. *)
Lemma loop_counter_ages : loop_counter = ages.
Proof. reflexivity. Qed.

(** The loop of the code adds up the weights of the history, oldest slot
    first. *)
Lemma weighted_total_from (buf next : Z) (n a : nat) (acc : float) :
  0 <= next -> (a + n <= 20)%nat ->
  fold_left (weigh_slot buf next) (map Z.of_nat (seq a n)) acc
  = weighted_sum_from (Z.of_nat a) (map (slot_of_age buf next) (map Z.of_nat (seq a n))) acc.
Proof.
  intros Hnext. revert a acc.
  induction n as [|n IH]; intros a acc Han; [reflexivity|].
  cbn [seq map fold_left weighted_sum_from].
  replace (Z.of_nat a + 1) with (Z.of_nat (S a)) by lia.
  rewrite IH by lia. f_equal.
  unfold weigh_slot, slot_of_age, bitset_test, slot_weight.
  rewrite Z.rem_mod_nonneg, double_of_int_age by lia. reflexivity.
Qed.

Lemma weighted_total_history (buf next : Z) :
  0 <= next -> weighted_total buf next = weighted_sum (history buf next).
Proof.
  intros Hnext. unfold weighted_total, weighted_sum, history.
  rewrite <- loop_counter_ages. unfold loop_counter.
  apply (weighted_total_from buf next 20 0 0%float Hnext). lia.
Qed.

(** C1: for a 20-bit buffer and an index in 0..19, UpdateFlappingStatus
    stores [stateChange] in the slot at the write index and leaves the other
    slots as they were, advances the index modulo 20, and stores as current
    value 100 * W / 20, where W adds 0.8 + 0.02 * i for each set slot of age
    i, the ages counted from the oldest slot (the one the new index points
    at) upwards.  The sum is the one the specification states, over the 20
    ages 0..19 written out, and is not built from the loop of the code.  The
    ages are ages: the slot of age 19 is the one just written, and the slot
    of age i < 19 is the one that had age i + 1 before the call. *)
Theorem UpdateFlappingStatus_buffer_index_value
  (now : float) (stateChange : bool) (c : Checkable) :
  0 <= FlappingBuffer c < 2 ^ 20 ->
  0 <= FlappingIndex c < 20 ->
  exists c', UpdateFlappingStatus now stateChange c = Some c'
    /\ (forall k, 0 <= k < 20 ->
          Z.testbit (FlappingBuffer c') k
          = if k =? FlappingIndex c then stateChange else Z.testbit (FlappingBuffer c) k)
    /\ 0 <= FlappingBuffer c' < 2 ^ 20
    /\ FlappingIndex c' = (FlappingIndex c + 1) mod 20
    /\ FlappingCurrent c'
       = flap_percentage (history (FlappingBuffer c') (FlappingIndex c'))
    /\ slot_of_age (FlappingBuffer c') (FlappingIndex c') 19 = stateChange
    /\ (forall i, 0 <= i < 19 ->
          slot_of_age (FlappingBuffer c') (FlappingIndex c') i
          = slot_of_age (FlappingBuffer c) (FlappingIndex c) (i + 1)).
Proof.
  intros Hbuf Hidx. unfold UpdateFlappingStatus.
  destruct (bitset_set (bitset20 (FlappingBuffer c)) (FlappingIndex c) stateChange)
    as [buf'|] eqn:Hset.
  2:{ unfold bitset_set in Hset.
      destruct (Z.leb_spec 0 (FlappingIndex c)); [|lia].
      destruct (Z.ltb_spec (FlappingIndex c) 20); [|lia]. discriminate. }
  rewrite bitset20_id in Hset by exact Hbuf.
  eexists. split; [reflexivity|].
  assert (Hrem : Z.rem (FlappingIndex c + 1) 20 = (FlappingIndex c + 1) mod 20)
    by (apply Z.rem_mod_nonneg; lia).
  cbn [SetFlapping Flapping]. rewrite Bool.eqb_reflx.
  cbn [negb FlappingBuffer FlappingIndex FlappingCurrent SetFlappingBuffer SetFlappingIndex
       SetFlappingCurrent SetFlapping].
  rewrite Hrem.
  assert (Hnext : 0 <= (FlappingIndex c + 1) mod 20 < 20) by (apply Z.mod_pos_bound; lia).
  split; [intros k Hk; apply (bitset_set_testbit _ _ _ _ _ Hset); lia|].
  split; [apply (bitset_set_range _ _ _ _ Hbuf Hset)|].
  split; [reflexivity|].
  split; [unfold flap_percentage; rewrite weighted_total_history by lia; reflexivity|].
  unfold slot_of_age. split.
  - rewrite (bitset_set_testbit _ _ _ _ _ Hset) by (apply Z.mod_pos_bound; lia).
    replace (((FlappingIndex c + 1) mod 20 + 19) mod 20) with (FlappingIndex c)
      by (rewrite Z.add_mod_idemp_l by lia;
          replace (FlappingIndex c + 1 + 19) with (FlappingIndex c + 1 * 20) by lia;
          rewrite Z.mod_add by lia; symmetry; apply Z.mod_small; lia).
    rewrite Z.eqb_refl. reflexivity.
  - intros i Hi.
    rewrite (bitset_set_testbit _ _ _ _ _ Hset) by (apply Z.mod_pos_bound; lia).
    rewrite Z.add_mod_idemp_l by lia.
    replace (FlappingIndex c + 1 + i) with (FlappingIndex c + (i + 1)) by lia.
    destruct (Z.eqb_spec ((FlappingIndex c + (i + 1)) mod 20) (FlappingIndex c)) as [Heq|];
      [|reflexivity].
    exfalso. revert Heq. generalize (FlappingIndex c) Hidx. intros idx Hx Heq.
    pose proof (Z.div_mod (idx + (i + 1)) 20 ltac:(lia)) as Hdm.
    rewrite Heq in Hdm. lia.
Qed.

(** The time stamp of the last change is the one stored before the call:
    [SetFlapping] has run when the stored flag is compared with the new one. *)
Lemma UpdateFlappingStatus_keeps_last_change
  (now : float) (stateChange : bool) (c c' : Checkable) :
  UpdateFlappingStatus now stateChange c = Some c' ->
  FlappingLastChange c' = FlappingLastChange c.
Proof.
  unfold UpdateFlappingStatus.
  destruct (bitset_set _ _ _) as [buf'|]; [|discriminate].
  intros [= <-]. cbn [SetFlapping Flapping].
  rewrite Bool.eqb_reflx. reflexivity.
Qed.

(** C2: on a checkable that is not flapping and whose 20 slots are all set,
    one more state change gives 99 percent, above the high threshold of 30:
    the stored flag goes from false to true, and the time stamp of the last
    change is still the old one (0), not the time of the call (1000). *)
Theorem UpdateFlappingStatus_transition_without_timestamp :
  exists c', UpdateFlappingStatus 1000%float true FlappingExamples.calm_full_history = Some c'
    /\ Flapping FlappingExamples.calm_full_history = false
    /\ Flapping c' = true
    /\ FlappingCurrent c' = 99%float
    /\ FlappingLastChange c' = 0%float
    /\ FlappingLastChange c' <> 1000%float.
Proof.
  eexists. split; [vm_compute; reflexivity|].
  repeat split; try reflexivity.
  cbn. intros H. apply (f_equal (fun x => PrimFloat.eqb x 0%float)) in H.
  vm_compute in H. discriminate.
Qed.

(** *** Comparisons of [double] values *)

Lemma SFcompare_Eq_sym (x y : spec_float) :
  SFcompare x y = Some Eq -> SFcompare y x = Some Eq.
Proof.
  destruct x as [sx|sx| |sx mx ex], y as [sy|sy| |sy my ey]; cbn;
    try discriminate; try reflexivity;
    try (destruct sx; discriminate); try (destruct sy; discriminate).
  - destruct sx, sy; try discriminate; reflexivity.
  - destruct sx, sy; try discriminate.
    all: destruct (Z.compare_spec ex ey) as [->| |]; try discriminate.
    all: change (PosDef.Pos.compare_cont Eq mx my) with (Pos.compare mx my).
    all: destruct (Pos.compare_spec mx my) as [->| |]; try discriminate.
    all: intros _; rewrite Z.compare_refl.
    all: change (PosDef.Pos.compare_cont Eq my my) with (Pos.compare my my).
    all: rewrite Pos.compare_refl; reflexivity.
Qed.

(** [x == y] excludes [y < x] (and [x < y]). *)
Lemma double_eqb_not_ltb (x y : float) :
  PrimFloat.eqb x y = true -> PrimFloat.ltb y x = false.
Proof.
  rewrite FloatAxioms.eqb_spec, FloatAxioms.ltb_spec. unfold SFeqb, SFltb.
  destruct (SFcompare (Prim2SF x) (Prim2SF y)) as [[| |]|] eqn:Hc; try discriminate.
  intros _. rewrite (SFcompare_Eq_sym _ _ Hc). reflexivity.
Qed.

(** The flag that is stored is the comparison of the code. *)
Lemma UpdateFlappingStatus_flag
  (now : float) (stateChange : bool) (c c' : Checkable) :
  UpdateFlappingStatus now stateChange c = Some c' ->
  Flapping c' = if Flapping c
                then PrimFloat.ltb (FlappingThresholdLow c) (FlappingCurrent c')
                else PrimFloat.ltb (FlappingThresholdHigh c) (FlappingCurrent c').
Proof.
  unfold UpdateFlappingStatus.
  destruct (bitset_set _ _ _) as [buf'|]; [|discriminate].
  intros [= <-]. cbn [SetFlapping Flapping]. rewrite Bool.eqb_reflx.
  cbn [negb Flapping FlappingCurrent FlappingThresholdLow FlappingThresholdHigh
       SetFlappingBuffer SetFlappingIndex SetFlappingCurrent SetFlapping].
  reflexivity.
Qed.

(** C3, as the specification states it, fails: a checkable that is flapping
    with a low threshold of 25 and whose history after the update holds five
    changes of ages 6, 8, 10, 12 and 14 has a percentage of exactly 25, equal
    to the low threshold, and the flag goes from true to false. *)
Lemma UpdateFlappingStatus_transition_at_low_threshold :
  exists c',
    UpdateFlappingStatus 1000%float false FlappingExamples.flapping_five_changes = Some c'
    /\ FlappingCurrent c' = FlappingThresholdLow FlappingExamples.flapping_five_changes
    /\ Flapping FlappingExamples.flapping_five_changes = true
    /\ Flapping c' = false.
Proof.
  eexists. split; [vm_compute; reflexivity|]. repeat split.
Qed.

(** C3, amended: the comparisons are strict.  When the checkable is
    flapping the new flag is true exactly when the percentage is greater than
    the low threshold, otherwise exactly when it is greater than the high
    threshold.  A percentage equal to the threshold compared against gives
    the flag false: equal to the high threshold it does not start flapping
    (no transition), equal to the low threshold it ends flapping (a
    transition). *)
Theorem UpdateFlappingStatus_hysteresis
  (now : float) (stateChange : bool) (c c' : Checkable) :
  UpdateFlappingStatus now stateChange c = Some c' ->
  (Flapping c = true ->
     Flapping c' = PrimFloat.ltb (FlappingThresholdLow c) (FlappingCurrent c'))
  /\ (Flapping c = false ->
     Flapping c' = PrimFloat.ltb (FlappingThresholdHigh c) (FlappingCurrent c'))
  /\ (Flapping c = false ->
     PrimFloat.eqb (FlappingCurrent c') (FlappingThresholdHigh c) = true ->
     Flapping c' = Flapping c)
  /\ (Flapping c = true ->
     PrimFloat.eqb (FlappingCurrent c') (FlappingThresholdLow c) = true ->
     Flapping c' = false /\ Flapping c' <> Flapping c).
Proof.
  intros Hrun. pose proof (UpdateFlappingStatus_flag _ _ _ _ Hrun) as Hflag.
  split; [|split; [|split]].
  - intros Hf. rewrite Hf in Hflag. exact Hflag.
  - intros Hf. rewrite Hf in Hflag. exact Hflag.
  - intros Hf Heq. rewrite Hf in Hflag |- *. rewrite Hflag.
    apply double_eqb_not_ltb. exact Heq.
  - intros Hf Heq. rewrite Hf in Hflag |- *. rewrite Hflag.
    rewrite (double_eqb_not_ltb _ _ Heq). split; [reflexivity | discriminate].
Qed.

Lemma UpdateFlappingStatus_hysteresis_witness :
  exists c',
    UpdateFlappingStatus 1000%float true FlappingExamples.calm_five_changes = Some c'
    /\ Flapping c' = PrimFloat.ltb 30%float (FlappingCurrent c').
Proof.
  eexists. split; [vm_compute; reflexivity|].
  apply (UpdateFlappingStatus_hysteresis 1000%float true
           FlappingExamples.calm_five_changes _ eq_refl).
  reflexivity.
Defined.

Lemma UpdateFlappingStatus_buffer_index_value_witness :
  exists c',
    UpdateFlappingStatus 1000%float true FlappingExamples.calm_five_changes = Some c'
    /\ Z.testbit (FlappingBuffer c') 0 = true
    /\ FlappingIndex c' = 1
    /\ FlappingCurrent c' = flap_percentage (history (FlappingBuffer c') (FlappingIndex c'))
    /\ flap_percentage (history (FlappingBuffer c') (FlappingIndex c'))
       = 30.899999999999999%float.
Proof.
  destruct (UpdateFlappingStatus_buffer_index_value 1000%float true
              FlappingExamples.calm_five_changes)
    as (c' & Hrun & Hbits & _ & Hindex & Hvalue & _).
  - cbn. lia.
  - cbn. lia.
  - exists c'. split; [exact Hrun|]. split; [apply (Hbits 0); lia|].
    split; [exact Hindex|]. split; [exact Hvalue|].
    vm_compute in Hrun. injection Hrun as <-. vm_compute. reflexivity.
Defined.

End FlappingFacts.

(** ** Reachability and parents *)

Section ReachabilityFacts.
Import Base Hosts.

Variable ResolveDependencies : Registry -> Host -> Dictionary -> Result Dictionary.

Lemma ServiceState_eqb_eq (a b : ServiceState) : ServiceState_eqb a b = true <-> a = b.
Proof. destruct a, b; cbn; split; intros H; try reflexivity; discriminate. Qed.

Lemma blocking_dec (s : Service) :
  blocking s <->
  match LastCheckResult s with
  | None => False
  | Some _ =>
    (if ServiceStateType_eqb (StateType s) StateTypeSoft then false
     else if ServiceState_eqb (State s) StateOK || ServiceState_eqb (State s) StateWarning
     then false else true) = true
  end.
Proof.
  unfold blocking.
  destruct (LastCheckResult s); [|split; [intros [H _]; apply H; reflexivity | intros []]].
  destruct (StateType s), (State s); cbn; split;
    try (intros (_ & H & _); discriminate H);
    try (intros (_ & _ & H & _); exfalso; apply H; reflexivity);
    try (intros (_ & _ & _ & H); exfalso; apply H; reflexivity);
    try discriminate; try reflexivity;
    intros _; repeat split; discriminate.
Qed.

Lemma IsReachable_services_false (ps : list Service) :
  IsReachable_services ps = false <-> exists s, In s ps /\ blocking s.
Proof.
  induction ps as [|s ps IH]; cbn [IsReachable_services].
  - split; [discriminate | intros (s & [] & _)].
  - pose proof (blocking_dec s) as Hs.
    destruct (LastCheckResult s) as [cr|].
    + destruct (ServiceStateType_eqb (StateType s) StateTypeSoft).
      { rewrite IH. split.
        - intros (x & Hx & Hb). exists x. split; [right; exact Hx | exact Hb].
        - intros (x & [<-|Hx] & Hb); [apply Hs in Hb; discriminate | eauto]. }
      destruct (ServiceState_eqb (State s) StateOK || ServiceState_eqb (State s) StateWarning).
      { rewrite IH. split.
        - intros (x & Hx & Hb). exists x. split; [right; exact Hx | exact Hb].
        - intros (x & [<-|Hx] & Hb); [apply Hs in Hb; discriminate | eauto]. }
      split; [|reflexivity]. intros _. exists s. split; [left; reflexivity|].
      apply Hs. reflexivity.
    + rewrite IH. split.
      * intros (x & Hx & Hb). exists x. split; [right; exact Hx | exact Hb].
      * intros (x & [<-|Hx] & Hb); [apply Hs in Hb; destruct Hb | eauto].
Qed.

Lemma IsReachable_hosts_spec (reg : Registry) (hs : list Host) :
  (forall p, In p hs -> exists up, IsUp ResolveDependencies reg p = Return up) ->
  (IsReachable_hosts ResolveDependencies reg hs = Return false
   /\ exists p, In p hs /\ IsUp ResolveDependencies reg p = Return false)
  \/ (IsReachable_hosts ResolveDependencies reg hs = Return true
      /\ forall p, In p hs -> IsUp ResolveDependencies reg p = Return true).
Proof.
  induction hs as [|p hs IH]; intros Hup; cbn [IsReachable_hosts].
  - right. split; [reflexivity | intros p []].
  - destruct (Hup p (or_introl eq_refl)) as [up Hp]. rewrite Hp. cbn [bind].
    destruct up.
    + destruct IH as [(Hr & q & Hq & Hdown)|(Hr & Hall)].
      * intros q Hq. apply Hup. right. exact Hq.
      * left. split; [exact Hr|]. exists q. split; [right; exact Hq | exact Hdown].
      * right. split; [exact Hr|]. intros q [<-|Hq]; [exact Hp | apply Hall, Hq].
    + left. split; [reflexivity|]. exists p. split; [left; reflexivity | exact Hp].
Qed.

(** C4: when the parent services and parent hosts of a host are [ps] and
    [phs] (and asking each parent host whether it is up gives an answer),
    IsReachable returns false if and only if some parent service has a check
    result, is in a hard state and is in a state other than OK and Warning,
    or some parent host is not up; otherwise it returns true.  So parent
    services that are pending or in a soft state do not make the host
    unreachable: with only such parent services the answer is that of the
    parent hosts. *)
Theorem IsReachable_false_iff (reg : Registry) (h : Host)
  (ps : list Service) (phs : list Host) :
  GetParentServices reg h = Return ps ->
  GetParentHosts reg h = Return phs ->
  (forall p, In p phs -> exists up, IsUp ResolveDependencies reg p = Return up) ->
  (IsReachable ResolveDependencies reg h = Return false <->
     (exists s, In s ps /\ LastCheckResult s <> None /\ StateType s = StateTypeHard
                /\ State s <> StateOK /\ State s <> StateWarning)
     \/ (exists p, In p phs /\ IsUp ResolveDependencies reg p = Return false))
  /\ (IsReachable ResolveDependencies reg h <> Return false ->
      IsReachable ResolveDependencies reg h = Return true)
  /\ ((forall s, In s ps -> LastCheckResult s = None \/ StateType s = StateTypeSoft) ->
      (IsReachable ResolveDependencies reg h = Return false <->
       exists p, In p phs /\ IsUp ResolveDependencies reg p = Return false)).
Proof.
  intros Hps Hphs Hup.
  assert (Hmain :
    IsReachable ResolveDependencies reg h = Return false <->
      (exists s, In s ps /\ blocking s)
      \/ (exists p, In p phs /\ IsUp ResolveDependencies reg p = Return false)).
  { unfold IsReachable. rewrite Hps. cbn [bind].
    destruct (IsReachable_services ps) eqn:Hsvc.
    - rewrite Hphs. cbn [bind].
      assert (Hnb : ~ exists s, In s ps /\ blocking s).
      { intros Hb. apply IsReachable_services_false in Hb. congruence. }
      destruct (IsReachable_hosts_spec reg phs Hup) as [(Hr & Hex)|(Hr & Hall)];
        rewrite Hr; split; intros H; try discriminate.
      + right. exact Hex.
      + reflexivity.
      + destruct H as [Hb|(p & Hp & Hdown)]; [destruct (Hnb Hb)|].
        rewrite (Hall p Hp) in Hdown. discriminate.
    - split; [|reflexivity]. intros _. left.
      apply IsReachable_services_false. exact Hsvc. }
  split; [exact Hmain|]. split.
  - unfold IsReachable. rewrite Hps. cbn [bind].
    destruct (IsReachable_services ps); [|intros H; destruct H; reflexivity].
    rewrite Hphs. cbn [bind].
    destruct (IsReachable_hosts_spec reg phs Hup) as [(Hr & _)|(Hr & _)];
      rewrite Hr; intros H; [destruct H|]; reflexivity.
  - intros Hquiet. rewrite Hmain. split; [|intros H; right; exact H].
    intros [(s & Hs & Hcr & Hhard & _)|H]; [|exact H].
    destruct (Hquiet s Hs) as [Hnone|Hsoft]; [destruct (Hcr Hnone)|].
    rewrite Hsoft in Hhard. discriminate.
Qed.

End ReachabilityFacts.

Lemma IsReachable_false_iff_witness :
  Hosts.IsReachable Installation.no_resolution
    (Installation.registry_with (Installation.db_service Hosts.StateTypeHard Hosts.StateCritical))
    Installation.web = Base.Return false.
Proof.
  refine (proj2 (proj1 (IsReachable_false_iff Installation.no_resolution
           (Installation.registry_with
              (Installation.db_service Hosts.StateTypeHard Hosts.StateCritical))
           Installation.web
           [Installation.db_service Hosts.StateTypeHard Hosts.StateCritical]
           [Installation.router] _ _ _)) _).
  - vm_compute. reflexivity.
  - vm_compute. reflexivity.
  - intros p [<-|[]]. exists true. vm_compute. reflexivity.
  - left. eexists. split; [left; reflexivity|].
    cbn. repeat split; discriminate.
Defined.

Section ParentFacts.
Import Base Hosts.

Variable reg : Registry.
Variable h : Host.

Lemma GetParentHosts_loop_skips_own_name (deps : Dictionary) (parents : list Host) :
  GetParentHosts_loop reg h deps parents
  = GetParentHosts_loop reg h (List.filter (not_own_name h) deps) parents.
Proof.
  revert parents. induction deps as [|[key v] deps IH]; intros parents; [reflexivity|].
  cbn [GetParentHosts_loop List.filter]. unfold not_own_name at 1. cbn [fst].
  destruct (String.eqb key (GetName h)) eqn:Hkey; cbn [negb].
  - apply IH.
  - cbn [GetParentHosts_loop]. rewrite Hkey.
    destruct (Host_GetByName reg key); cbn [bind]; [apply IH | reflexivity].
Qed.

Lemma GetParentHosts_loop_throws (deps : Dictionary) (parents : list Host) :
  (exists e, GetParentHosts_loop reg h deps parents = Throw e)
  <-> exists key, In key (map fst deps) /\ key <> GetName h
                  /\ host_objects reg !! key = None.
Proof.
  revert parents. induction deps as [|[key v] deps IH]; intros parents.
  - cbn. split; [intros [e He]; discriminate | intros (k & [] & _)].
  - cbn [GetParentHosts_loop map fst].
    destruct (String.eqb_spec key (GetName h)) as [Hown|Hother].
    + rewrite IH. split.
      * intros (k & Hk & Hne & Hnone). exists k. split; [right; exact Hk | auto].
      * intros (k & [<-|Hk] & Hne & Hnone); [destruct (Hne Hown) | eauto].
    + unfold Host_GetByName. destruct (host_objects reg !! key) as [p|] eqn:Hlook; cbn [bind].
      * rewrite IH. split.
        -- intros (k & Hk & Hne & Hnone). exists k. split; [right; exact Hk | auto].
        -- intros (k & [<-|Hk] & Hne & Hnone); [congruence | eauto].
      * split; [|intros _; eexists; reflexivity].
        intros _. exists key. split; [left; reflexivity | auto].
Qed.

Lemma GetParentServices_loop_throws (deps : Dictionary) (parents : list Service) :
  (exists e, GetParentServices_loop reg h deps parents = Throw e)
  <-> exists key, In key (map fst deps)
                  /\ service_objects reg !! (GetName h +:+ "-" +:+ key) = None
                  /\ service_objects reg !! key = None.
Proof.
  revert parents. induction deps as [|[key v] deps IH]; intros parents.
  - cbn. split; [intros [e He]; discriminate | intros (k & [] & _)].
  - cbn [GetParentServices_loop map fst].
    unfold ResolveService, Service_Exists, Service_GetByName.
    destruct (service_objects reg !! (GetName h +:+ "-" +:+ key)) as [s|] eqn:Hscoped.
    + cbn [bind]. rewrite IH. split.
      * intros (k & Hk & H1 & H2). exists k. split; [right; exact Hk | auto].
      * intros (k & [<-|Hk] & H1 & H2); [congruence | eauto].
    + destruct (service_objects reg !! key) as [s|] eqn:Hbare; cbn [bind].
      * rewrite IH. split.
        -- intros (k & Hk & H1 & H2). exists k. split; [right; exact Hk | auto].
        -- intros (k & [<-|Hk] & H1 & H2); [congruence | eauto].
      * split; [|intros _; eexists; reflexivity].
        intros _. exists key. split; [left; reflexivity | auto].
Qed.

(** C5, amended: a name in a dependency map that does not resolve is not
    skipped.  GetParentHosts leaves with the exception of Host::GetByName
    exactly when some key other than the host's own name is not a registered
    host, and GetParentServices leaves with an exception exactly when some
    key resolves neither as "<host>-<key>" nor as "<key>"; no set of parents
    is returned then.  Only the host's own name in its host-dependency map is
    skipped: the result is that of the map without these entries. *)
Theorem parents_lookup_failure_propagates :
  (forall deps, GetHostDependencies h = Some deps ->
     ((exists e, GetParentHosts reg h = Throw e)
      <-> exists key, In key (map fst deps) /\ key <> GetName h
                      /\ host_objects reg !! key = None)
     /\ GetParentHosts reg h = GetParentHosts_loop reg h (List.filter (not_own_name h) deps) [])
  /\ (forall deps, GetServiceDependencies h = Some deps ->
     ((exists e, GetParentServices reg h = Throw e)
      <-> exists key, In key (map fst deps)
                      /\ service_objects reg !! (GetName h +:+ "-" +:+ key) = None
                      /\ service_objects reg !! key = None)).
Proof.
  split.
  - intros deps Hdeps. unfold GetParentHosts. rewrite Hdeps. split.
    + apply GetParentHosts_loop_throws.
    + apply GetParentHosts_loop_skips_own_name.
  - intros deps Hdeps. unfold GetParentServices. rewrite Hdeps.
    apply GetParentServices_loop_throws.
Qed.

End ParentFacts.

(** C5, as the specification states it, fails: "web" depends on the hosts
    "gone" and "router" and on the services "gone" and "db"; "router" and
    "web-db" are registered and "gone" is not.  Neither call skips "gone" and
    returns the other parent: both leave with the exception of the lookup. *)
Lemma GetParentHosts_missing_entry_throws :
  Hosts.Host_Exists
    (Installation.registry_with (Installation.db_service Hosts.StateTypeHard Hosts.StateOK))
    "router" = true
  /\ Hosts.GetParentHosts
       (Installation.registry_with (Installation.db_service Hosts.StateTypeHard Hosts.StateOK))
       Installation.web_dangling
     = Base.Throw (Base.invalid_argument "Host 'gone' does not exist.")
  /\ Hosts.GetParentServices
       (Installation.registry_with (Installation.db_service Hosts.StateTypeHard Hosts.StateOK))
       Installation.web_dangling
     = Base.Throw (Base.invalid_argument "Service 'gone' does not exist.").
Proof. vm_compute. repeat split. Qed.

Lemma parents_lookup_failure_propagates_witness :
  exists e,
    Hosts.GetParentHosts
      (Installation.registry_with (Installation.db_service Hosts.StateTypeHard Hosts.StateOK))
      Installation.web_dangling = Base.Throw e.
Proof.
  apply (proj1 (parents_lookup_failure_propagates
           (Installation.registry_with (Installation.db_service Hosts.StateTypeHard Hosts.StateOK))
           Installation.web_dangling)
         [("gone"%string, Base.Empty); ("router"%string, Base.Empty)] eq_refl).
  exists "gone"%string. split; [left; reflexivity|].
  split; [discriminate | vm_compute; reflexivity].
Defined.

(** ** Acknowledgements *)

Section AcknowledgementFacts.
Import Base Hosts.

Lemma cleared_fields (h : Host) :
  acknowledgement (cleared h) = Some AcknowledgementNone
  /\ acknowledgement_expiry (cleared h) = Some 0%float
  /\ GetAcknowledgementExpiry (cleared h) = 0%float
  /\ modified (cleared h)
     = modified h ++ ["acknowledgement"%string; "acknowledgement_expiry"%string].
Proof.
  unfold cleared, SetAcknowledgementExpiry, SetAcknowledgement, GetAcknowledgementExpiry.
  cbn. rewrite <- app_assoc. repeat split.
Qed.

Lemma GetAcknowledgement_none_stored (now : float) (h : Host) :
  acknowledgement h = Some AcknowledgementNone ->
  GetAcknowledgement now h = (AcknowledgementNone, h).
Proof. intros Hack. unfold GetAcknowledgement. rewrite Hack. reflexivity. Qed.

(** C6: for a host whose stored acknowledgement type is not none, if the
    stored expiry is not 0 and is earlier than the current time,
    GetAcknowledgement sets the type to none and the expiry to 0 and returns
    none; otherwise it returns the stored type and leaves the host as it is.
    In particular, after SetAcknowledgement(Sticky) and
    SetAcknowledgementExpiry(t) with t set and in the past, the next
    GetAcknowledgement returns none and leaves both fields cleared, and so
    does every later one. *)
Theorem GetAcknowledgement_expiry (now : float) (h : Host) (a : AcknowledgementType) :
  acknowledgement h = Some a ->
  a <> AcknowledgementNone ->
  (expired (GetAcknowledgementExpiry h) now = true ->
     GetAcknowledgement now h = (AcknowledgementNone, cleared h)
     /\ acknowledgement (cleared h) = Some AcknowledgementNone
     /\ acknowledgement_expiry (cleared h) = Some 0%float)
  /\ (expired (GetAcknowledgementExpiry h) now = false ->
     GetAcknowledgement now h = (a, h))
  /\ (forall (h0 : Host) (t : float),
        PrimFloat.eqb t 0%float = false -> PrimFloat.ltb t now = true ->
        let h1 := SetAcknowledgementExpiry t (SetAcknowledgement AcknowledgementSticky h0) in
        let h2 := (GetAcknowledgement now h1).2 in
        (GetAcknowledgement now h1).1 = AcknowledgementNone
        /\ acknowledgement h2 = Some AcknowledgementNone
        /\ GetAcknowledgementExpiry h2 = 0%float
        /\ GetAcknowledgement now h2 = (AcknowledgementNone, h2)).
Proof.
  intros Hack Hset.
  assert (Hne : negb (a =? AcknowledgementNone) = true).
  { apply negb_true_iff, Z.eqb_neq, Hset. }
  split; [|split].
  - intros Hexp. split; [|split; apply cleared_fields].
    unfold GetAcknowledgement. rewrite Hack, Hne.
    unfold expired in Hexp. rewrite Hexp. reflexivity.
  - intros Hexp. unfold GetAcknowledgement. rewrite Hack, Hne.
    unfold expired in Hexp. rewrite Hexp. reflexivity.
  - intros h0 t Hnz Hpast h1 h2.
    assert (Hrun : GetAcknowledgement now h1 = (AcknowledgementNone, cleared h1)).
    { unfold GetAcknowledgement, h1. cbn. rewrite Hnz, Hpast. reflexivity. }
    unfold h2. rewrite Hrun. cbn [fst snd].
    split; [reflexivity|]. split; [apply cleared_fields|]. split; [apply cleared_fields|].
    apply GetAcknowledgement_none_stored, cleared_fields.
Qed.

(** C10: for a host whose acknowledgement attribute is empty,
    GetAcknowledgement returns none and writes nothing: the host is the one
    before the call, so the expiry attribute, stale or not, is as it was,
    and no attribute has been set. *)
Theorem GetAcknowledgement_empty_no_write (now : float) (h : Host) :
  acknowledgement h = None ->
  GetAcknowledgement now h = (AcknowledgementNone, h)
  /\ acknowledgement_expiry (GetAcknowledgement now h).2 = acknowledgement_expiry h
  /\ modified (GetAcknowledgement now h).2 = modified h.
Proof.
  intros Hack. unfold GetAcknowledgement. rewrite Hack. repeat split.
Qed.

End AcknowledgementFacts.

Lemma GetAcknowledgement_expiry_witness :
  Hosts.GetAcknowledgement 1000%float Installation.web_acknowledged
  = (Hosts.AcknowledgementNone, Hosts.cleared Installation.web_acknowledged).
Proof.
  refine (proj1 (proj1 (GetAcknowledgement_expiry 1000%float Installation.web_acknowledged
                          Hosts.AcknowledgementSticky _ _) _)).
  - reflexivity.
  - discriminate.
  - vm_compute. reflexivity.
Defined.

Lemma GetAcknowledgement_empty_no_write_witness :
  Hosts.acknowledgement_expiry Installation.web_stale_expiry = Some 500%float
  /\ Hosts.GetAcknowledgement 1000%float Installation.web_stale_expiry
     = (Hosts.AcknowledgementNone, Installation.web_stale_expiry).
Proof.
  split; [reflexivity|].
  apply (GetAcknowledgement_empty_no_write 1000%float Installation.web_stale_expiry).
  reflexivity.
Defined.

(** ** The cache of services *)

Section ServicesCacheFacts.
Import Base Hosts ServicesCache.

Lemma consistent_initial : consistent initial.
Proof. split; cbn; intros ? ? H; rewrite lookup_empty in H; discriminate. Qed.

Lemma consistent_Register (s : Service) (st : Objects) :
  consistent st -> consistent (Register s st).
Proof.
  intros [Hreg Hfresh]. unfold Register.
  set (kept := match registered st !! service_name s with
               | Some old => delete old (alive st)
               | None => alive st
               end).
  assert (Hkept : forall a x, kept !! a = Some x -> alive st !! a = Some x).
  { intros a x. unfold kept. destruct (registered st !! service_name s); [|auto].
    intros H. apply lookup_delete_Some in H. apply H. }
  assert (Hnext : kept !! next_address st = None).
  { destruct (kept !! next_address st) as [x|] eqn:Hx; [|reflexivity].
    apply Hkept, Hfresh in Hx. lia. }
  split; cbn.
  - intros name a Hlook. destruct (decide (service_name s = name)) as [<-|Hne].
    + rewrite lookup_insert_eq in Hlook. injection Hlook as <-.
      exists s. rewrite lookup_insert_eq. split; reflexivity.
    + rewrite lookup_insert_ne in Hlook by exact Hne.
      destruct (Hreg name a Hlook) as (x & Hx & Hname).
      assert (Ha : a <> next_address st) by (apply Hfresh in Hx; lia).
      exists x. split; [|exact Hname].
      rewrite lookup_insert_ne by congruence.
      unfold kept. destruct (registered st !! service_name s) as [old|] eqn:Hold; [|exact Hx].
      rewrite lookup_delete_ne; [exact Hx|]. intros <-.
      destruct (Hreg _ _ Hold) as (y & Hy & Hyname). congruence.
  - intros a x Hlook. destruct (decide (next_address st = a)) as [<-|Hne]; [lia|].
    rewrite lookup_insert_ne in Hlook by exact Hne.
    apply Hkept, Hfresh in Hlook. lia.
Qed.

Lemma consistent_Unregister (name : string) (st : Objects) :
  consistent st -> consistent (Unregister name st).
Proof.
  intros [Hreg Hfresh]. unfold Unregister.
  destruct (registered st !! name) as [a|] eqn:Hname; [|split; assumption].
  split; cbn.
  - intros n b Hlook. apply lookup_delete_Some in Hlook as [Hne Hlook].
    destruct (Hreg n b Hlook) as (x & Hx & Hxname).
    exists x. split; [|exact Hxname].
    rewrite lookup_delete_ne; [exact Hx|]. intros <-.
    destruct (Hreg _ _ Hname) as (y & Hy & Hyname). congruence.
  - intros b x Hlook. apply lookup_delete_Some in Hlook as [_ Hlook].
    apply (Hfresh _ _ Hlook).
Qed.

(** The calls on the cache leave the objects and the registry alone. *)
Lemma ValidateServicesCache_objects (st : Objects) :
  alive (ValidateServicesCache st) = alive st
  /\ registered (ValidateServicesCache st) = registered st
  /\ next_address (ValidateServicesCache st) = next_address st.
Proof. unfold ValidateServicesCache. destruct (m_ServicesCacheValid st); repeat split. Qed.

Lemma GetServices_objects (name : string) (st : Objects) :
  alive (GetServices name st).2 = alive st
  /\ registered (GetServices name st).2 = registered st
  /\ next_address (GetServices name st).2 = next_address st.
Proof. unfold GetServices. cbn. apply ValidateServicesCache_objects. Qed.

Lemma consistent_same_objects (st st' : Objects) :
  alive st' = alive st -> registered st' = registered st ->
  next_address st' = next_address st -> consistent st -> consistent st'.
Proof. unfold consistent. intros -> -> ->. auto. Qed.

Lemma consistent_step (op : operation) (st : Objects) :
  consistent st -> consistent (step st op).
Proof.
  destruct op as [s|name| |host]; cbn [step].
  - apply consistent_Register.
  - apply consistent_Unregister.
  - apply consistent_same_objects; reflexivity.
  - apply consistent_same_objects; apply GetServices_objects.
Qed.

Lemma consistent_run (ops : list operation) (st : Objects) :
  consistent st -> consistent (run ops st).
Proof.
  revert st. induction ops as [|op ops IH]; intros st Hst; [exact Hst|].
  apply IH, consistent_step, Hst.
Qed.

(** What the rebuild enters under a host name. *)
Lemma cache_service_fold (st : Objects) (l : list (string * address))
  (cache : gmap string (list address)) (host : string) (a : address) :
  a ∈ default [] (fold_left (cache_service st) l cache !! host)
  <-> a ∈ default [] (cache !! host)
      \/ exists name s, (name, a) ∈ l /\ alive st !! a = Some s /\ GetHost_GetName s = host.
Proof.
  revert cache. induction l as [|[name b] l IH]; intros cache; cbn [fold_left].
  - split; [auto|]. intros [H|(n & s & H & _)]; [exact H|]. apply elem_of_nil in H. destruct H.
  - rewrite IH. unfold cache_service at 1. cbn [snd].
    destruct (alive st !! b) as [s|] eqn:Hb.
    + unfold cache_push_back.
      destruct (decide (GetHost_GetName s = host)) as [<-|Hne].
      * rewrite lookup_insert_eq. cbn [default from_option id].
        rewrite elem_of_app, list_elem_of_singleton.
        split.
        -- intros [[H| ->]|(n & x & H & Hx)]; [left; exact H | |].
           ++ right. exists name, s. split; [apply list_elem_of_here | auto].
           ++ right. exists n, x. split; [apply list_elem_of_further, H | exact Hx].
        -- intros [H|(n & x & H & Hx & Hhost)]; [auto|].
           apply elem_of_cons in H as [[= -> ->]|H]; [auto|].
           right. exists n, x. auto.
      * rewrite lookup_insert_ne by exact Hne. split.
        -- intros [H|(n & x & H & Hx)]; [auto|].
           right. exists n, x. split; [apply list_elem_of_further, H | exact Hx].
        -- intros [H|(n & x & H & Hx & Hhost)]; [auto|].
           apply elem_of_cons in H as [[= -> ->]|H]; [congruence|].
           right. exists n, x. auto.
    + split.
      * intros [H|(n & x & H & Hx)]; [auto|].
        right. exists n, x. split; [apply list_elem_of_further, H | exact Hx].
      * intros [H|(n & x & H & Hx & Hhost)]; [auto|].
        apply elem_of_cons in H as [[= -> ->]|H]; [congruence|].
        right. exists n, x. auto.
Qed.

(** What [GetServices] makes of the entries of the cache: the ones whose
    object is still there. *)
Lemma lock_fold (st : Objects) (entries : list address) (acc : gset address) (a : address) :
  a ∈ fold_left (fun (services : gset address) svc =>
                   match lock st svc with
                   | None => services
                   | Some service => {[service]} ∪ services
                   end) entries acc
  <-> a ∈ acc \/ (a ∈ entries /\ is_Some (alive st !! a)).
Proof.
  revert acc. induction entries as [|b entries IH]; intros acc; cbn [fold_left].
  - split; [auto|]. intros [H|[H _]]; [exact H|]. apply elem_of_nil in H. destruct H.
  - rewrite IH. unfold lock. rewrite elem_of_cons.
    destruct (alive st !! b) as [s|] eqn:Hb.
    + rewrite elem_of_union, elem_of_singleton. split.
      * intros [[->|H]|[H Hs]]; [right; split; [left; reflexivity | rewrite Hb; eauto] | auto |].
        right. auto.
      * intros [H|[[->|H] Hs]]; auto.
    + split.
      * intros [H|[H Hs]]; auto.
      * intros [H|[[->|H] Hs]]; [auto | | auto].
        rewrite Hb in Hs. destruct Hs as [? [=]].
Qed.

Lemma GetServices_entries (name : string) (st : Objects) (a : address) :
  a ∈ (GetServices name st).1
  <-> a ∈ default [] (m_ServicesCache (ValidateServicesCache st) !! name)
      /\ is_Some (alive st !! a).
Proof.
  unfold GetServices. cbn [fst]. rewrite lock_fold. cbn [alive].
  destruct (ValidateServicesCache_objects st) as (-> & _).
  split; [intros [H|H]; [apply elem_of_empty in H; destruct H | exact H] | auto].
Qed.

(** The rebuild files every registered service under its host name, and
    nothing else. *)
Lemma rebuilt_cache_groups (st : Objects) (host : string) (a : address) :
  consistent st -> m_ServicesCacheValid st = false ->
  a ∈ default [] (m_ServicesCache (ValidateServicesCache st) !! host)
  <-> services_of_host host st a.
Proof.
  intros [Hreg _] Hstale.
  unfold ValidateServicesCache, services_of_host. rewrite Hstale.
  cbn [m_ServicesCache]. rewrite cache_service_fold. split.
  - intros [H|(n & s & Hin & Hs & Hhost)].
    + rewrite lookup_empty in H. apply elem_of_nil in H. destruct H.
    + apply elem_of_map_to_list in Hin.
      destruct (Hreg n a Hin) as (s' & Hs' & Hname).
      exists s. split; [|auto]. congruence.
  - intros (s & Hlook & Hs & Hhost).
    right. exists (service_name s), s. split; [|auto].
    apply elem_of_map_to_list. exact Hlook.
Qed.

(** C8: after any sequence of registrations, removals, invalidations and
    readings, followed by an invalidation, GetServices for a host returns
    exactly the live registered services that declare this host: the rebuild
    goes through the registered services and files each under its host name,
    so that the cache it leaves holds, under every host name, the services
    that declare it, and is valid.  And whatever the state of the cache, an
    entry whose object has been destroyed is left out: every service
    returned is alive. *)
Theorem GetServices_after_invalidation (ops : list operation) (name : string) :
  (forall a,
     a ∈ (GetServices name (InvalidateServicesCache (run ops initial))).1
     <-> services_of_host name (InvalidateServicesCache (run ops initial)) a)
  /\ (forall host a,
        a ∈ default [] (m_ServicesCache
                          (GetServices name (InvalidateServicesCache (run ops initial))).2
                        !! host)
        <-> services_of_host host (InvalidateServicesCache (run ops initial)) a)
  /\ m_ServicesCacheValid (GetServices name (InvalidateServicesCache (run ops initial))).2
     = true
  /\ (forall st a, a ∈ (GetServices name st).1 -> is_Some (alive st !! a)).
Proof.
  assert (Hst : consistent (InvalidateServicesCache (run ops initial))).
  { apply (consistent_same_objects (run ops initial)); try reflexivity.
    apply consistent_run, consistent_initial. }
  set (st := InvalidateServicesCache (run ops initial)) in *.
  assert (Hstale : m_ServicesCacheValid st = false) by reflexivity.
  split; [|split; [|split]].
  - intros a. rewrite GetServices_entries, (rebuilt_cache_groups st name a Hst Hstale).
    split; [intros [H _]; exact H|].
    intros H. split; [exact H|]. destruct H as (s & _ & Hs & _). rewrite Hs. eauto.
  - intros host a. rewrite <- (rebuilt_cache_groups st host a Hst Hstale).
    unfold GetServices. cbn [snd m_ServicesCache].
    destruct (decide (name = host)) as [->|Hne].
    + rewrite lookup_insert_eq. reflexivity.
    + rewrite lookup_insert_ne by exact Hne. reflexivity.
  - unfold GetServices, ValidateServicesCache. rewrite Hstale. reflexivity.
  - intros st' a H. apply GetServices_entries in H. apply H.
Qed.

End ServicesCacheFacts.

(** A valid cache with an entry whose object has been destroyed (the weak
    pointer outlives the object): [GetServices] leaves the entry out. *)
Example GetServices_drops_destroyed :
  (ServicesCache.GetServices "web"
     (ServicesCache.mkObjects ∅ ∅ 2%positive {["web"%string := [1%positive]]} true)).1 = ∅.
Proof. vm_compute. reflexivity. Qed.

(** ** The handlers of the configuration compiler's notifications *)

Section BuilderFacts.
Import Base Hosts ConfigBridge Removal.

(** Committing and unregistering an item leave the host objects alone, and
    touch the registered items and the service objects under the name of the
    item only. *)
Lemma Commit_host_objects (item : ConfigItem) (cfg : Config) :
  host_objects (objects (Commit item cfg)) = host_objects (objects cfg).
Proof.
  unfold Commit, create_object. cbn [objects].
  destruct (String.eqb (item_type item) "Service"); reflexivity.
Qed.

Lemma Unregister_host_objects (item : ConfigItem) (cfg : Config) :
  host_objects (objects (Unregister item cfg)) = host_objects (objects cfg).
Proof.
  unfold Unregister, remove_object. cbn [objects].
  destruct (String.eqb (item_type item) "Service"); reflexivity.
Qed.

Lemma Commit_other_name (item : ConfigItem) (cfg : Config) (n : string) :
  item_name item <> n ->
  service_objects (objects (Commit item cfg)) !! n = service_objects (objects cfg) !! n
  /\ forall type, items (Commit item cfg) !! (type, n) = items cfg !! (type, n).
Proof.
  intros Hne. unfold Commit, create_object. cbn [objects items]. split.
  - destruct (String.eqb (item_type item) "Service"); [|reflexivity].
    cbn [service_objects]. apply lookup_insert_ne. exact Hne.
  - intros type. apply lookup_insert_ne. congruence.
Qed.

Lemma Unregister_other_name (item : ConfigItem) (cfg : Config) (n : string) :
  item_name item <> n ->
  service_objects (objects (Unregister item cfg)) !! n = service_objects (objects cfg) !! n
  /\ forall type, items (Unregister item cfg) !! (type, n) = items cfg !! (type, n).
Proof.
  intros Hne. unfold Unregister, remove_object. cbn [objects items]. split.
  - destruct (String.eqb (item_type item) "Service"); [|reflexivity].
    cbn [service_objects]. apply lookup_delete_ne. exact Hne.
  - intros type. apply lookup_delete_ne. congruence.
Qed.

Lemma copy_attribute_type_name (get : string -> Value) (key : string)
  (op : ExpressionOperator) (b : ConfigItem) :
  item_type (copy_attribute get key op b) = item_type b
  /\ item_name (copy_attribute get key op b) = item_name b.
Proof. unfold copy_attribute. destruct (negb (IsEmpty (get key))); split; reflexivity. Qed.

Lemma CopyServiceAttributes_type_name (get : string -> Value) (b : ConfigItem) :
  item_type (CopyServiceAttributes get b) = item_type b
  /\ item_name (CopyServiceAttributes get b) = item_name b.
Proof.
  unfold CopyServiceAttributes.
  repeat match goal with
         | |- context [copy_attribute ?g ?k ?o ?x] =>
           destruct (copy_attribute_type_name g k o x) as [-> ->]
         end.
  split; reflexivity.
Qed.

Lemma build_service_well_formed (item : ConfigItem) (host : Host) (svcname : string)
  (svcdesc : Value) :
  well_formed_description svcdesc = true ->
  exists serviceItem,
    build_service item host svcname svcdesc = Return serviceItem
    /\ item_type serviceItem = "Service"%string
    /\ item_name serviceItem = synthesized_name (item_name item) svcname.
Proof.
  unfold build_service, synthesized_name.
  destruct svcdesc as [|text|service|]; cbn [well_formed_description]; try discriminate.
  - intros _. cbn [IsScalar IsEmpty IsObject negb andb Value_to_String bind].
    eexists. split; [reflexivity|]. unfold Compile, AddParent. cbn [item_type item_name].
    apply CopyServiceAttributes_type_name.
  - intros Hwf. cbn [IsScalar IsEmpty IsObject negb andb].
    destruct (Get service "service") as [|text|d|]; try discriminate Hwf;
      cbn [Value_to_String bind]; (eexists; split; [reflexivity|]);
      unfold Compile;
      match goal with
      | |- context [CopyServiceAttributes ?g ?x] =>
        destruct (CopyServiceAttributes_type_name g x) as [-> ->]
      end;
      unfold AddParent; cbn [item_type item_name];
      apply CopyServiceAttributes_type_name.
Qed.

Lemma build_service_malformed (item : ConfigItem) (host : Host) (svcname : string)
  (svcdesc : Value) :
  well_formed_description svcdesc = false ->
  exists e, build_service item host svcname svcdesc = Throw e
            /\ (neither_scalar_nor_dictionary svcdesc = true ->
                e = invalid_argument
                      "Service description must be either a string or a dictionary.").
Proof.
  unfold build_service.
  destruct svcdesc as [|text|service|]; cbn [well_formed_description]; try discriminate.
  - intros _. eexists. split; [reflexivity | reflexivity].
  - intros Hwf. cbn [IsScalar IsEmpty IsObject negb andb].
    destruct (Get service "service") as [|text|d|]; try discriminate Hwf;
      cbn [Value_to_String bind]; (eexists; split; [reflexivity | discriminate]).
  - intros _. eexists. split; [reflexivity | reflexivity].
Qed.

(** With or without an exception, the loop leaves the errors of the
    compiler and the host objects as they are, and what it enters in the
    trace are commits. *)
Lemma build_services_frame (item : ConfigItem) (host : Host) (descs : Dictionary)
  (acc : list (string * option ConfigItem)) (cfg : Config) :
  errors (build_services item host descs acc cfg).2 = errors cfg
  /\ host_objects (objects (build_services item host descs acc cfg).2)
     = host_objects (objects cfg)
  /\ exists names, trace (build_services item host descs acc cfg).2
                   = trace cfg ++ map Committed names.
Proof.
  revert acc cfg. induction descs as [|[svcname svcdesc] descs IH]; intros acc cfg;
    cbn [build_services].
  - repeat split. exists []. cbn. rewrite app_nil_r. reflexivity.
  - destruct (build_service item host svcname svcdesc) as [serviceItem|e].
    + destruct (IH (Set_ acc (item_name item +:+ "-" +:+ svcname) (Some serviceItem))
                  (Commit serviceItem cfg)) as (He & Ho & names & Ht).
      rewrite He, Ho, Ht, Commit_host_objects. repeat split.
      exists (item_name serviceItem :: names). cbn. rewrite <- app_assoc. reflexivity.
    + repeat split. exists []. cbn. rewrite app_nil_r. reflexivity.
Qed.

(** C9, as the specification states it, fails: a validation call without
    arguments, or with the location alone, and the commit of a host with an
    inline service described by an object that is not a dictionary all leave
    with [invalid_argument], and none of them gives the compiler an error. *)
Lemma invalid_configuration_is_thrown :
  ValidateServiceDictionary [] (Installation.configuration Installation.web)
  = (Throw (invalid_argument "Missing argument: Location must be specified."),
     Installation.configuration Installation.web)
  /\ ValidateServiceDictionary [Scalar "hosts.conf:1"]
       (Installation.configuration Installation.web)
     = (Throw (invalid_argument "Missing argument: Attribute dictionary must be specified."),
        Installation.configuration Installation.web)
  /\ (ObjectCommittedHandler Installation.web_item
        (Installation.configuration Installation.web_malformed)).1
     = Throw (invalid_argument "Service description must be either a string or a dictionary.")
  /\ errors (ObjectCommittedHandler Installation.web_item
               (Installation.configuration Installation.web_malformed)).2 = [].
Proof. repeat split; vm_compute; reflexivity. Qed.

(** *** Dictionaries *)

Lemma Contains_In {A : Type} (d : list (string * A)) (key : string) :
  Contains d key = true <-> In key (map fst d).
Proof.
  induction d as [|[k v] d IH]; cbn [Contains map fst In].
  - split; [discriminate | intros []].
  - rewrite orb_true_iff, IH, String.eqb_eq. reflexivity.
Qed.

Lemma Set_keys {A : Type} (d : list (string * A)) (key : string) (v : A) (n : string) :
  In n (map fst (Set_ d key v)) <-> n = key \/ In n (map fst d).
Proof.
  induction d as [|[k w] d IH]; cbn [Set_ map fst In].
  - split; [intros [<-|[]]; auto | intros [->|[]]; auto].
  - destruct (String.eqb_spec k key) as [->|Hne]; cbn [map fst In].
    + split; [intros [<-|H]; auto | intros [->|[<-|H]]; auto].
    + rewrite IH. split; [intros [<-|[->|H]]; auto | intros [->|[<-|H]]; auto].
Qed.

Lemma Set_entries {A : Type} (d : list (string * A)) (key : string) (v : A) (k : string) (w : A) :
  In (k, w) (Set_ d key v) -> (k = key /\ w = v) \/ In (k, w) d.
Proof.
  induction d as [|[k0 w0] d IH]; cbn [Set_ In].
  - intros [[= <- <-]|[]]. auto.
  - destruct (String.eqb_spec k0 key) as [->|Hne]; cbn [In].
    + intros [[= <- <-]|H]; auto.
    + intros [H|H]; [auto|]. destruct (IH H); auto.
Qed.

Lemma Set_keys_entry {A : Type} (d : list (string * A)) (key : string) (v : A) :
  In (key, v) (Set_ d key v).
Proof.
  induction d as [|[k0 w0] d IH]; cbn [Set_ In]; [auto|].
  destruct (String.eqb_spec k0 key) as [->|Hne]; cbn [In]; auto.
Qed.

Lemma Set_other_entry {A : Type} (d : list (string * A)) (key : string) (v : A)
  (k : string) (w : A) :
  k <> key -> In (k, w) d -> In (k, w) (Set_ d key v).
Proof.
  intros Hne. induction d as [|[k0 w0] d IH]; cbn [Set_ In]; [auto|].
  destruct (String.eqb_spec k0 key) as [->|Hk]; cbn [In].
  - intros [[= -> ->]|H]; [congruence | auto].
  - intros [H|H]; auto.
Qed.

(** *** The three steps of the handler *)

Lemma synthesized_item_type_name(item : ConfigItem) (host : Host) (desc : string * Value) :
  well_formed_description desc.2 = true ->
  build_service item host desc.1 desc.2 = Return (synthesized_item item host desc)
  /\ item_type (synthesized_item item host desc) = "Service"%string
  /\ item_name (synthesized_item item host desc) = synthesized_name (item_name item) desc.1.
Proof.
  intros Hwf. unfold synthesized_item.
  destruct (build_service_well_formed item host desc.1 desc.2 Hwf) as (it & -> & Ht & Hn).
  auto.
Qed.

Lemma build_services_well_formed (item : ConfigItem) (host : Host) (descs : Dictionary)
  (acc : list (string * option ConfigItem)) (cfg : Config) :
  all_well_formed descs ->
  build_services item host descs acc cfg
  = (Return (fold_left (enter_service item host) descs acc),
     fold_left (fun c desc => Commit (synthesized_item item host desc) c) descs cfg).
Proof.
  intros Hwf. revert acc cfg.
  induction Hwf as [|[svcname svcdesc] descs Hd Hrest IH]; intros acc cfg; [reflexivity|].
  cbn [build_services fold_left].
  destruct (synthesized_item_type_name item host (svcname, svcdesc) Hd) as (Hb & _).
  cbn [fst snd] in Hb. rewrite Hb. apply IH.
Qed.

Lemma new_services_keys (item : ConfigItem) (host : Host) (descs : Dictionary)
  (acc : list (string * option ConfigItem)) (n : string) :
  In n (map fst (fold_left (enter_service item host) descs acc))
  <-> In n (map fst acc) \/ In n (synthesized_names item descs).
Proof.
  revert acc. induction descs as [|desc descs IH]; intros acc; cbn [fold_left].
  - cbn. tauto.
  - rewrite IH. unfold enter_service. rewrite Set_keys.
    unfold synthesized_names. cbn [map In]. split.
    + intros [[->|H]|H]; auto.
    + intros [H|[<-|H]]; auto.
Qed.

Lemma new_services_owned (item : ConfigItem) (host : Host) (descs : Dictionary)
  (acc : list (string * option ConfigItem)) :
  all_well_formed descs -> owned acc ->
  owned (fold_left (enter_service item host) descs acc).
Proof.
  intros Hwf. revert acc.
  induction Hwf as [|desc descs Hd Hrest IH]; intros acc Hacc; [exact Hacc|].
  cbn [fold_left]. apply IH. intros k v Hin.
  apply Set_entries in Hin as [[-> ->]|Hin]; [|apply (Hacc _ _ Hin)].
  destruct (synthesized_item_type_name item host desc Hd) as (_ & Ht & Hn).
  eexists. split; [reflexivity|]. auto.
Qed.

Lemma commits_fold (item : ConfigItem) (host : Host) (descs : Dictionary) (cfg : Config) :
  all_well_formed descs ->
  let cfg' := fold_left (fun c desc => Commit (synthesized_item item host desc) c) descs cfg in
  trace cfg' = trace cfg ++ map Committed (synthesized_names item descs)
  /\ host_objects (objects cfg') = host_objects (objects cfg)
  /\ errors cfg' = errors cfg
  /\ (forall key, is_Some (items cfg !! key) -> is_Some (items cfg' !! key))
  /\ (forall n, In n (synthesized_names item descs) ->
        is_Some (items cfg' !! ("Service"%string, n))).
Proof.
  intros Hwf. revert cfg.
  induction Hwf as [|desc descs Hd Hrest IH]; intros cfg; cbn [fold_left].
  - cbn. rewrite app_nil_r. repeat split; [auto | intros n []].
  - destruct (IH (Commit (synthesized_item item host desc) cfg))
      as (Ht & Ho & He & Hkeep & Hnew).
    destruct (synthesized_item_type_name item host desc Hd) as (_ & Htype & Hname).
    cbn zeta. rewrite Ht, Ho, He, Commit_host_objects. unfold synthesized_names.
    cbn [map Commit trace errors].
    rewrite <- app_assoc, Hname. cbn [app]. repeat split.
    + intros key Hsome. apply Hkeep. cbn [Commit items].
      destruct (decide ((item_type (synthesized_item item host desc),
                         item_name (synthesized_item item host desc)) = key)) as [<-|Hne].
      * rewrite lookup_insert_eq. eauto.
      * rewrite lookup_insert_ne by exact Hne. exact Hsome.
    + intros n [<-|Hin]; [|apply Hnew, Hin].
      apply Hkeep. cbn [Commit items]. rewrite Htype, Hname, lookup_insert_eq. eauto.
Qed.

Lemma unregister_old_fold (old new : list (string * option ConfigItem)) (cfg : Config) :
  unregister_old old new cfg
  = fold_left (fun c service => Unregister service c) (absent_services old new) cfg.
Proof.
  revert cfg. induction old as [|[k [service|]] old IH]; intros cfg;
    cbn [unregister_old absent_services]; [reflexivity| |apply IH].
  destruct (negb (Contains new (item_name service))); cbn [fold_left]; apply IH.
Qed.

Lemma absent_services_spec (old new : list (string * option ConfigItem)) (it : ConfigItem) :
  In it (absent_services old new)
  <-> (exists k, In (k, Some it) old) /\ ~ In (item_name it) (map fst new).
Proof.
  induction old as [|[k [service|]] old IH]; cbn [absent_services].
  - split; [intros [] | intros [[k []] _]].
  - destruct (Contains new (item_name service)) eqn:Hc; cbn [negb In].
    + rewrite IH. split.
      * intros [[k' Hk'] Hn]. split; [exists k'; right; exact Hk' | exact Hn].
      * intros [[k' [[= <- <-]|Hk']] Hn]; [|eauto].
        apply Contains_In in Hc. destruct (Hn Hc).
    + rewrite IH. split.
      * intros [<-|[[k' Hk'] Hn]].
        -- split; [exists k; left; reflexivity|].
           intros Hin. apply Contains_In in Hin. congruence.
        -- split; [exists k'; right; exact Hk' | exact Hn].
      * intros [[k' [[= <- <-]|Hk']] Hn]; [left; reflexivity | right; eauto].
  - rewrite IH. split.
    + intros [[k' Hk'] Hn]. split; [exists k'; right; exact Hk' | exact Hn].
    + intros [[k' [[=]|Hk']] Hn]. eauto.
Qed.

Lemma unregisters_fold (l : list ConfigItem) (cfg : Config) :
  let cfg' := fold_left (fun c service => Unregister service c) l cfg in
  trace cfg' = trace cfg ++ map Unregistered (map item_name l)
  /\ host_objects (objects cfg') = host_objects (objects cfg)
  /\ errors cfg' = errors cfg
  /\ (forall it, In it l -> items cfg' !! (item_type it, item_name it) = None)
  /\ (forall key, items cfg !! key = None -> items cfg' !! key = None)
  /\ (forall key, (forall it, In it l -> (item_type it, item_name it) <> key) ->
        items cfg' !! key = items cfg !! key).
Proof.
  revert cfg. induction l as [|service l IH]; intros cfg; cbn [fold_left].
  - cbn. rewrite app_nil_r. repeat split; [intros it [] | auto].
  - destruct (IH (Unregister service cfg)) as (Ht & Ho & He & Hgone & Hnone & Hother).
    cbn zeta. rewrite Ht, Ho, He, Unregister_host_objects.
    cbn [map Unregister trace errors].
    rewrite <- app_assoc. cbn [app]. repeat split.
    + intros it [<-|Hin]; [|apply Hgone, Hin].
      apply Hnone. cbn [Unregister items]. apply lookup_delete_eq.
    + intros key Hkey. apply Hnone. cbn [Unregister items].
      apply lookup_delete_None. right. exact Hkey.
    + intros key Hkey. rewrite Hother by (intros it Hin; apply Hkey; right; exact Hin).
      cbn [Unregister items]. apply lookup_delete_ne. apply Hkey. left. reflexivity.
Qed.

Lemma ObjectCommittedHandler_committed (item : ConfigItem) (cfg : Config) (host : Host) :
  item_type item = "Host"%string ->
  host_objects (objects cfg) !! item_name item = Some host ->
  all_well_formed (default [] (services host)) ->
  ObjectCommittedHandler item cfg = (Return tt, committed item host cfg).
Proof.
  intros Htype Hhost Hwf.
  unfold ObjectCommittedHandler, Host_Exists, Host_GetByName, committed.
  rewrite Htype, Hhost.
  replace (String.eqb "Host" "Host") with true by reflexivity. cbn [negb].
  destruct (services host) as [descs|]; cbn [default from_option id] in *.
  - rewrite (build_services_well_formed item host descs [] cfg Hwf).
    fold (new_services item host descs).
    destruct (convenience_services host) as [old|]; cbn [default from_option id].
    + rewrite unregister_old_fold. reflexivity.
    + reflexivity.
  - destruct (convenience_services host) as [old|]; cbn [default from_option id].
    + rewrite unregister_old_fold. reflexivity.
    + reflexivity.
Qed.

Lemma committed_facts (item : ConfigItem) (cfg : Config) (host : Host) :
  all_well_formed (default [] (services host)) ->
  let descs := default [] (services host) in
  let old := default [] (convenience_services host) in
  let new := new_services item host descs in
  trace (committed item host cfg)
  = trace cfg ++ map Committed (synthesized_names item descs)
      ++ map Unregistered (map item_name (absent_services old new))
      ++ [Stored (item_name item) (map fst new)]
  /\ host_objects (objects (committed item host cfg)) !! item_name item
     = Some (Set_convenience_services new host)
  /\ errors (committed item host cfg) = errors cfg
  /\ (forall n, In n (map fst new) ->
        is_Some (items (committed item host cfg) !! ("Service"%string, n)))
  /\ (forall it, In it (absent_services old new) ->
        items (committed item host cfg) !! (item_type it, item_name it) = None).
Proof.
  intros Hwf descs old new. unfold committed. fold descs old new.
  destruct (commits_fold item host descs cfg Hwf) as (Ht & Ho & He & Hkeep & Hnew).
  set (cfg1 := fold_left (fun c desc => Commit (synthesized_item item host desc) c) descs cfg)
    in *.
  destruct (unregisters_fold (absent_services old new) cfg1)
    as (Ht2 & Ho2 & He2 & Hgone & Hnone & Hother).
  set (cfg2 := fold_left (fun c service => Unregister service c) (absent_services old new) cfg1)
    in *.
  unfold store_services. cbn [trace objects errors items host_objects].
  rewrite Ht2, Ht, He2, He, <- !app_assoc, lookup_insert_eq.
  repeat split; [|exact Hgone].
  intros n Hn. rewrite Hother.
  - apply Hnew. apply (new_services_keys item host descs [] n) in Hn as [[]|Hn]. exact Hn.
  - intros it Hit [= _ Hname]. apply absent_services_spec in Hit as [_ Hnot].
    apply Hnot. rewrite Hname. exact Hn.
Qed.


(** *** Invalid configurations *)

(** The loop stops at the first description that cannot be built, with the
    services of the descriptions before it committed. *)
Lemma build_services_stops (item : ConfigItem) (host : Host) (before after : Dictionary)
  (svcname : string) (svcdesc : Value) (e : exception)
  (acc : list (string * option ConfigItem)) (cfg : Config) :
  all_well_formed before ->
  build_service item host svcname svcdesc = Throw e ->
  build_services item host (before ++ (svcname, svcdesc) :: after) acc cfg
  = (Throw e, fold_left (fun c desc => Commit (synthesized_item item host desc) c) before cfg).
Proof.
  intros Hwf Hbad. revert acc cfg.
  induction Hwf as [|[n d] before Hd Hrest IH]; intros acc cfg;
    cbn [app build_services fold_left].
  - rewrite Hbad. reflexivity.
  - destruct (synthesized_item_type_name item host (n, d) Hd) as (Hb & _).
    cbn [fst snd] in Hb. rewrite Hb. apply IH.
Qed.

(** Among descriptions one of which cannot be built there is a first such. *)
Lemma first_malformed (descs : Dictionary) :
  (exists svcname svcdesc, In (svcname, svcdesc) descs
                           /\ well_formed_description svcdesc = false) ->
  exists before svcname svcdesc after,
    descs = before ++ (svcname, svcdesc) :: after
    /\ all_well_formed before
    /\ well_formed_description svcdesc = false.
Proof.
  induction descs as [|[n d] descs IH]; intros (k & v & Hin & Hbad); [destruct Hin|].
  destruct (well_formed_description d) eqn:Hd.
  - destruct IH as (before & svcname & svcdesc & after & -> & Hwf & Hsvc).
    { destruct Hin as [[= -> ->]|Hin]; [congruence | eauto]. }
    exists ((n, d) :: before), svcname, svcdesc, after.
    split; [reflexivity|]. split; [constructor; assumption | exact Hsvc].
  - exists [], n, d, descs. split; [reflexivity|]. split; [constructor | exact Hd].
Qed.

(** The errors that the loop of the validation adds are "not found" errors,
    each for the name an entry refers to and under which no service item is
    registered; the loop changes nothing else, whether it runs to its end or
    not. *)
Lemma validate_services_adds_not_found (location : string) (attrs : Dictionary)
  (cfg : Config) :
  exists names,
    errors (validate_services location attrs cfg).2
    = errors cfg ++ map (not_found location) names
    /\ (forall name, In name names ->
          items cfg !! ("Service"%string, name) = None
          /\ exists key value, In (key, value) attrs
                               /\ referenced_name key value = Some name)
    /\ objects (validate_services location attrs cfg).2 = objects cfg
    /\ items (validate_services location attrs cfg).2 = items cfg
    /\ trace (validate_services location attrs cfg).2 = trace cfg.
Proof.
  revert cfg. induction attrs as [|[key value] attrs IH]; intros cfg.
  - exists []. cbn. rewrite app_nil_r.
    split; [reflexivity|]. split; [intros name []|]. repeat split.
  - set (claim := fun r : Result unit * Config =>
                    exists names,
                      errors r.2 = errors cfg ++ map (not_found location) names
                      /\ (forall name, In name names ->
                            items cfg !! ("Service"%string, name) = None
                            /\ exists k v, In (k, v) ((key, value) :: attrs)
                                           /\ referenced_name k v = Some name)
                      /\ objects r.2 = objects cfg
                      /\ items r.2 = items cfg
                      /\ trace r.2 = trace cfg).
    change (claim (validate_services location ((key, value) :: attrs) cfg)).
    assert (Hstop : forall e, claim (Throw e, cfg)).
    { intros e. exists []. cbn. rewrite app_nil_r.
      split; [reflexivity|]. split; [intros name []|]. repeat split. }
    assert (Hnext : claim (validate_services location attrs cfg)).
    { destruct (IH cfg) as (names & He & Hn & Ho & Hi & Ht).
      exists names. split; [exact He|]. split; [|auto].
      intros name Hin. destruct (Hn name Hin) as (Hnone & k & v & Hkv & Hr).
      split; [exact Hnone|]. exists k, v. split; [right; exact Hkv | exact Hr]. }
    assert (Hlook : forall name,
              referenced_name key value = Some name ->
              claim match items cfg !! ("Service"%string, name) with
                    | None =>
                      validate_services location attrs
                        (AddError false ("Validation failed for " +:+ location
                                         +:+ ": Service '" +:+ name +:+ "' not found.") cfg)
                    | Some _ => validate_services location attrs cfg
                    end).
    { intros name Href.
      destruct (items cfg !! ("Service"%string, name)) eqn:Hitem; [exact Hnext|].
      destruct (IH (AddError false ("Validation failed for " +:+ location
                                    +:+ ": Service '" +:+ name +:+ "' not found.") cfg))
        as (names & He & Hn & Ho & Hi & Ht).
      exists (name :: names). rewrite He, Ho, Hi, Ht.
      cbn [AddError errors items objects trace map In].
      rewrite <- app_assoc. split; [reflexivity|]. split; [|auto].
      intros n [<-|Hin].
      - split; [exact Hitem|]. exists key, value. split; [left; reflexivity | exact Href].
      - destruct (Hn n Hin) as (Hnone & k & v & Hkv & Hr).
        split; [exact Hnone|]. exists k, v. split; [right; exact Hkv | exact Hr]. }
    cbn [validate_services].
    destruct value as [|text|serviceDesc|];
      cbn [IsScalar IsEmpty IsObject negb andb Value_to_String].
    + exact Hnext.
    + apply Hlook. reflexivity.
    + cbn [referenced_name] in Hlook.
      destruct (Contains serviceDesc "service"); [|apply Hlook; reflexivity].
      destruct (Get serviceDesc "service") as [|text|d|]; cbn [Value_to_String];
        try apply Hstop; apply Hlook; reflexivity.
    + exact Hnext.
Qed.

(** C9, amended: an invalid configuration is thrown, not reported.  A
    validation call with fewer than two arguments leaves with
    [invalid_argument] before anything is examined and changes nothing.  The
    commit of a host stops at the first inline service that cannot be built,
    with [invalid_argument] when its description is neither a scalar nor a
    dictionary: the services of the descriptions before it have been
    committed and are registered, no old service has been unregistered,
    nothing has been stored on the host, and no error has been added to the
    compiler's context.  Every set of descriptions one of which cannot be
    built has such a first one.  In a validation call an entry that is
    neither a scalar nor a dictionary is passed over without an error, and
    whatever the arguments, every error the call adds is the "not found"
    error, at the location given, for the name an entry of the attribute map
    refers to and under which no service item is registered; nothing else
    changes. *)
Theorem invalid_configuration_throws (cfg : Config) :
  (forall arguments, (length arguments < 2)%nat ->
     ValidateServiceDictionary arguments cfg
     = (Throw (invalid_argument
                 match arguments with
                 | [] => "Missing argument: Location must be specified."
                 | _ => "Missing argument: Attribute dictionary must be specified."
                 end), cfg))
  /\ (forall item host before svcname svcdesc after,
        item_type item = "Host"%string ->
        host_objects (objects cfg) !! item_name item = Some host ->
        services host = Some (before ++ (svcname, svcdesc) :: after) ->
        all_well_formed before ->
        well_formed_description svcdesc = false ->
        let cfg' := (ObjectCommittedHandler item cfg).2 in
        (exists e, (ObjectCommittedHandler item cfg).1 = Throw e)
        /\ (neither_scalar_nor_dictionary svcdesc = true ->
            (ObjectCommittedHandler item cfg).1
            = Throw (invalid_argument
                       "Service description must be either a string or a dictionary."))
        /\ cfg' = fold_left (fun c desc => Commit (synthesized_item item host desc) c) before cfg
        /\ trace cfg' = trace cfg ++ map Committed (synthesized_names item before)
        /\ (forall n, In n (synthesized_names item before) ->
              is_Some (items cfg' !! ("Service"%string, n)))
        /\ (forall key, is_Some (items cfg !! key) -> is_Some (items cfg' !! key))
        /\ host_objects (objects cfg') = host_objects (objects cfg)
        /\ errors cfg' = errors cfg)
  /\ (forall descs,
        (exists svcname svcdesc, In (svcname, svcdesc) descs
                                 /\ well_formed_description svcdesc = false) ->
        exists before svcname svcdesc after,
          descs = before ++ (svcname, svcdesc) :: after
          /\ all_well_formed before
          /\ well_formed_description svcdesc = false)
  /\ (forall location key value rest,
        neither_scalar_nor_dictionary value = true ->
        validate_services location ((key, value) :: rest) cfg
        = validate_services location rest cfg)
  /\ (forall location attrs more,
        let after := (ValidateServiceDictionary (location :: attrs :: more) cfg).2 in
        exists names,
          errors after
          = errors cfg ++ map (not_found match Value_to_String location with
                                         | Return text => text
                                         | Throw _ => ""%string
                                         end) names
          /\ (forall name, In name names ->
                items cfg !! ("Service"%string, name) = None
                /\ exists entries key value,
                     attrs = DictionaryValue entries
                     /\ In (key, value) entries
                     /\ referenced_name key value = Some name)
          /\ objects after = objects cfg
          /\ items after = items cfg
          /\ trace after = trace cfg).
Proof.
  split; [|split; [|split; [|split]]].
  - intros arguments Hlen. unfold ValidateServiceDictionary.
    destruct arguments as [|a [|b rest]]; cbn in Hlen |- *; try lia; reflexivity.
  - intros item host before svcname svcdesc after Htype Hhost Hdescs Hwf Hbad cfg'.
    destruct (build_service_malformed item host svcname svcdesc Hbad) as (e & Hb & He).
    assert (Hrun : ObjectCommittedHandler item cfg
                   = (Throw e,
                      fold_left (fun c desc => Commit (synthesized_item item host desc) c)
                        before cfg)).
    { unfold ObjectCommittedHandler, Host_Exists, Host_GetByName.
      rewrite Htype, Hhost, Hdescs.
      replace (String.eqb "Host" "Host") with true by reflexivity. cbn [negb].
      rewrite (build_services_stops item host before after svcname svcdesc e [] cfg Hwf Hb).
      reflexivity. }
    unfold cfg'. rewrite Hrun. cbn [fst snd].
    destruct (commits_fold item host before cfg Hwf) as (Ht & Ho & Herr & Hkeep & Hnew).
    split; [eexists; reflexivity|].
    split; [intros Hneither; rewrite (He Hneither); reflexivity|].
    split; [reflexivity|]. split; [exact Ht|]. split; [exact Hnew|].
    split; [exact Hkeep|]. split; [exact Ho | exact Herr].
  - apply first_malformed.
  - intros location key value rest Hneither.
    destruct value; try discriminate; reflexivity.
  - intros location attrs more after. unfold after, ValidateServiceDictionary.
    cbn [length Nat.ltb Nat.leb].
    assert (Hsame : forall (r : Result Value) text,
              exists names,
                errors (r, cfg).2 = errors cfg ++ map (not_found text) names
                /\ (forall name, In name names ->
                      items cfg !! ("Service"%string, name) = None
                      /\ exists entries key value,
                           attrs = DictionaryValue entries
                           /\ In (key, value) entries
                           /\ referenced_name key value = Some name)
                /\ objects (r, cfg).2 = objects cfg
                /\ items (r, cfg).2 = items cfg
                /\ trace (r, cfg).2 = trace cfg).
    { intros r text. exists []. cbn. rewrite app_nil_r.
      split; [reflexivity|]. split; [intros name []|]. repeat split. }
    destruct (Value_to_String location) as [text|e]; [|apply Hsame].
    destruct attrs as [|scalar|entries|]; try apply Hsame.
    destruct (validate_services_adds_not_found text entries cfg)
      as (names & He & Hn & Ho & Hi & Ht).
    exists names.
    assert (Hnames : forall name, In name names ->
              items cfg !! ("Service"%string, name) = None
              /\ exists entries0 key value,
                   DictionaryValue entries = DictionaryValue entries0
                   /\ In (key, value) entries0
                   /\ referenced_name key value = Some name).
    { intros name Hin. destruct (Hn name Hin) as (Hnone & k & v & Hkv & Hr).
      split; [exact Hnone|]. exists entries, k, v. auto. }
    destruct (validate_services text entries cfg) as [[u|e] cfg1]; cbn [fst snd] in *; auto.
Qed.

End BuilderFacts.


(** A second commit of "web", now with the inline services "ping" and
    "ssh": "web-http" is unregistered after "web-ping" and "web-ssh" have
    been committed, and before the new set is stored. *)
Example ObjectCommittedHandler_second_commit :
  ConfigBridge.trace
    (ConfigBridge.ObjectCommittedHandler Installation.web_item
       (ConfigBridge.update_host_services "web"
          (Some [("ping", Base.Scalar "ping-template"); ("ssh", Base.Scalar "ssh-template")])
          (ConfigBridge.ObjectCommittedHandler Installation.web_item
             (Installation.configuration Installation.web)).2)).2
  = [ConfigBridge.Committed "web-ping"; ConfigBridge.Committed "web-http";
     ConfigBridge.Stored "web" ["web-ping"; "web-http"];
     ConfigBridge.Committed "web-ping"; ConfigBridge.Committed "web-ssh";
     ConfigBridge.Unregistered "web-http";
     ConfigBridge.Stored "web" ["web-ping"; "web-ssh"]]%string.
Proof. vm_compute. reflexivity. Qed.

Lemma invalid_configuration_throws_witness :
  (ConfigBridge.ObjectCommittedHandler Installation.web_item
     (Installation.configuration Installation.web_malformed)).1
  = Base.Throw (Base.invalid_argument
                  "Service description must be either a string or a dictionary.")
  /\ ConfigBridge.trace
       (ConfigBridge.ObjectCommittedHandler Installation.web_item
          (Installation.configuration Installation.web_malformed)).2
     = [ConfigBridge.Committed "web-ping"].
Proof.
  destruct (proj1 (proj2 (invalid_configuration_throws
                            (Installation.configuration Installation.web_malformed)))
              Installation.web_item Installation.web_malformed
              [("ping"%string, Base.Scalar "ping-template")] "odd"%string Base.ObjectValue [])
    as (_ & Hthrow & _ & Htrace & _).
  - reflexivity.
  - vm_compute. reflexivity.
  - reflexivity.
  - repeat constructor.
  - reflexivity.
  - split; [apply Hthrow; reflexivity | exact Htrace].
Defined.

(** * Further properties of the code *)

(** ** Flapping detection: bounds and runs *)

Section FlappingRunFacts.
Import Flapping FlappingRuns.

(** What a call stores, for any buffer the checkable may hold. *)
Lemma UpdateFlappingStatus_in_range
  (now : float) (stateChange : bool) (c : Checkable) :
  0 <= FlappingIndex c < 20 ->
  exists c', UpdateFlappingStatus now stateChange c = Some c'
    /\ (forall k, 0 <= k < 20 ->
          Z.testbit (FlappingBuffer c') k
          = if k =? FlappingIndex c then stateChange else Z.testbit (FlappingBuffer c) k)
    /\ 0 <= FlappingBuffer c' < 2 ^ 20
    /\ FlappingIndex c' = (FlappingIndex c + 1) mod 20
    /\ FlappingCurrent c'
       = flap_percentage (history (FlappingBuffer c') (FlappingIndex c')).
Proof.
  intros Hidx. unfold UpdateFlappingStatus.
  destruct (bitset_set (bitset20 (FlappingBuffer c)) (FlappingIndex c) stateChange)
    as [buf'|] eqn:Hset.
  2:{ unfold bitset_set in Hset.
      destruct (Z.leb_spec 0 (FlappingIndex c)); [|lia].
      destruct (Z.ltb_spec (FlappingIndex c) 20); [|lia]. discriminate. }
  eexists. split; [reflexivity|].
  assert (Hrem : Z.rem (FlappingIndex c + 1) 20 = (FlappingIndex c + 1) mod 20)
    by (apply Z.rem_mod_nonneg; lia).
  cbn [SetFlapping Flapping]. rewrite Bool.eqb_reflx.
  cbn [negb FlappingBuffer FlappingIndex FlappingCurrent SetFlappingBuffer SetFlappingIndex
       SetFlappingCurrent SetFlapping].
  rewrite Hrem.
  assert (Hnext : 0 <= (FlappingIndex c + 1) mod 20 < 20) by (apply Z.mod_pos_bound; lia).
  split.
  { intros k Hk. rewrite (bitset_set_testbit _ _ _ _ _ Hset) by lia.
    rewrite bitset20_testbit by lia.
    destruct (Z.ltb_spec k 20); [|lia]. rewrite andb_true_r. reflexivity. }
  split; [apply (bitset_set_range _ _ _ _ (bitset20_range _) Hset)|].
  split; [reflexivity|].
  unfold flap_percentage. rewrite weighted_total_history by lia. reflexivity.
Qed.

(** X1: UpdateFlappingStatus throws (std::out_of_range, from bitset::set)
    exactly when the stored index is not one of 0..19; then nothing is
    stored.  Otherwise it returns, whatever integer the stored buffer is, and
    what it stores is a buffer of 20 bits and an index in 0..19. *)
Theorem UpdateFlappingStatus_throws_iff_index_out_of_range
  (now : float) (stateChange : bool) (c : Checkable) :
  (UpdateFlappingStatus now stateChange c = None <-> ~ 0 <= FlappingIndex c < 20)
  /\ (forall c', UpdateFlappingStatus now stateChange c = Some c' ->
        0 <= FlappingBuffer c' < 2 ^ 20 /\ 0 <= FlappingIndex c' < 20).
Proof.
  split.
  - split.
    + intros Hnone Hidx.
      destruct (UpdateFlappingStatus_in_range now stateChange c Hidx) as (c' & Hrun & _).
      congruence.
    + intros Hout. unfold UpdateFlappingStatus, bitset_set.
      destruct (Z.leb_spec 0 (FlappingIndex c)); [|reflexivity].
      destruct (Z.ltb_spec (FlappingIndex c) 20); [lia | reflexivity].
  - intros c' Hrun.
    destruct (Z_le_dec 0 (FlappingIndex c)) as [Hlo|Hlo];
      [destruct (Z_lt_dec (FlappingIndex c) 20) as [Hhi|Hhi]|].
    + destruct (UpdateFlappingStatus_in_range now stateChange c (conj Hlo Hhi))
        as (c2 & Hrun2 & _ & Hbuf & Hindex & _).
      rewrite Hrun in Hrun2. injection Hrun2 as <-.
      split; [exact Hbuf|]. rewrite Hindex. apply Z.mod_pos_bound. lia.
    + exfalso. revert Hrun. unfold UpdateFlappingStatus, bitset_set.
      destruct (Z.leb_spec 0 (FlappingIndex c)); [|discriminate].
      destruct (Z.ltb_spec (FlappingIndex c) 20); [lia | discriminate].
    + exfalso. revert Hrun. unfold UpdateFlappingStatus, bitset_set.
      destruct (Z.leb_spec 0 (FlappingIndex c)); [lia | discriminate].
Qed.

(** The history after a call is the history before it without its oldest
    slot, followed by the observation. *)
Lemma history_slides (buf buf' idx : Z) (stateChange : bool) :
  0 <= idx < 20 ->
  (forall k, 0 <= k < 20 ->
     Z.testbit buf' k = if k =? idx then stateChange else Z.testbit buf k) ->
  history buf' ((idx + 1) mod 20) = skipn 1 (history buf idx) ++ [stateChange].
Proof.
  intros Hidx Hbits. unfold history.
  change ages with (map Z.of_nat (seq 0 20)).
  change (seq 0 20) with (seq 0 19 ++ [19%nat]) at 1.
  change (seq 0 20) with (0%nat :: seq 1 19).
  rewrite !map_app. cbn [map skipn]. f_equal.
  - rewrite <- seq_shift, !map_map. apply map_ext_in.
    intros i Hi. apply in_seq in Hi. unfold slot_of_age.
    rewrite Hbits by (apply Z.mod_pos_bound; lia).
    rewrite Z.add_mod_idemp_l by lia.
    replace (idx + 1 + Z.of_nat i) with (idx + Z.of_nat (S i)) by lia.
    destruct (Z.eqb_spec ((idx + Z.of_nat (S i)) mod 20) idx) as [Heq|]; [|reflexivity].
    exfalso. pose proof (Z.div_mod (idx + Z.of_nat (S i)) 20 ltac:(lia)) as Hdm.
    rewrite Heq in Hdm. lia.
  - f_equal. unfold slot_of_age.
    rewrite Hbits by (apply Z.mod_pos_bound; lia).
    replace (((idx + 1) mod 20 + Z.of_nat 19) mod 20) with idx.
    + rewrite Z.eqb_refl. reflexivity.
    + rewrite Z.add_mod_idemp_l by lia.
      replace (idx + 1 + Z.of_nat 19) with (idx + 1 * 20) by lia.
      rewrite Z.mod_add by lia. symmetry. apply Z.mod_small. lia.
Qed.

Lemma history_length (buf idx : Z) : length (history buf idx) = 20%nat.
Proof. reflexivity. Qed.

Lemma UpdateFlappingStatus_each_history (evaluations : list (float * bool)) (c : Checkable) :
  0 <= FlappingIndex c < 20 ->
  exists c', UpdateFlappingStatus_each evaluations c = Some c'
    /\ FlappingIndex c' = (FlappingIndex c + Z.of_nat (length evaluations)) mod 20
    /\ history (FlappingBuffer c') (FlappingIndex c')
       = skipn (length evaluations)
           (history (FlappingBuffer c) (FlappingIndex c) ++ map snd evaluations).
Proof.
  revert c. induction evaluations as [|[now stateChange] rest IH]; intros c Hidx.
  - exists c. split; [reflexivity|]. cbn [length map skipn Z.of_nat].
    rewrite Z.add_0_r, Z.mod_small, app_nil_r by lia. split; reflexivity.
  - destruct (UpdateFlappingStatus_in_range now stateChange c Hidx)
      as (c1 & Hrun & Hbits & _ & Hindex & _).
    assert (Hidx1 : 0 <= FlappingIndex c1 < 20)
      by (rewrite Hindex; apply Z.mod_pos_bound; lia).
    destruct (IH c1 Hidx1) as (c' & Hrest & Hindex' & Hhist).
    exists c'. cbn [UpdateFlappingStatus_each]. rewrite Hrun.
    split; [exact Hrest|]. split.
    + rewrite Hindex', Hindex, Z.add_mod_idemp_l by lia. f_equal.
      cbn [length]. lia.
    + rewrite Hhist, Hindex.
      rewrite (history_slides _ _ _ stateChange Hidx Hbits).
      cbn [length map snd].
      pose proof (history_length (FlappingBuffer c) (FlappingIndex c)) as Hlen.
      destruct (history (FlappingBuffer c) (FlappingIndex c)) as [|b hist];
        [discriminate|].
      cbn [skipn app]. rewrite <- app_assoc. reflexivity.
Qed.

(** X2: starting with an index in 0..19, a run of calls never throws; after
    n calls the index has advanced by n modulo 20, and the history, oldest
    slot first, is the old history followed by the n observations, without
    its first n slots.  From 20 calls on, the history is exactly the last 20
    observations. *)
Theorem UpdateFlappingStatus_each_keeps_last_20
  (evaluations : list (float * bool)) (c : Checkable) :
  0 <= FlappingIndex c < 20 ->
  exists c', UpdateFlappingStatus_each evaluations c = Some c'
    /\ FlappingIndex c' = (FlappingIndex c + Z.of_nat (length evaluations)) mod 20
    /\ history (FlappingBuffer c') (FlappingIndex c')
       = skipn (length evaluations)
           (history (FlappingBuffer c) (FlappingIndex c) ++ map snd evaluations)
    /\ ((20 <= length evaluations)%nat ->
        history (FlappingBuffer c') (FlappingIndex c')
        = skipn (length evaluations - 20) (map snd evaluations)).
Proof.
  intros Hidx.
  destruct (UpdateFlappingStatus_each_history evaluations c Hidx)
    as (c' & Hrun & Hindex & Hhist).
  exists c'. split; [exact Hrun|]. split; [exact Hindex|]. split; [exact Hhist|].
  intros Hlen. rewrite Hhist, skipn_app, history_length.
  rewrite skipn_all2 by (rewrite history_length; exact Hlen). reflexivity.
Qed.

Lemma percentages_within_sound (n : nat) (i : Z) (acc : float) :
  percentages_within n i acc = true ->
  forall slots, length slots = n ->
    within_0_99 (100 * weighted_sum_from i slots acc / 20)%float = true.
Proof.
  revert i acc. induction n as [|n IH]; intros i acc Hall slots Hlen.
  - destruct slots; [exact Hall | discriminate].
  - destruct slots as [|b slots]; [discriminate|].
    cbn [percentages_within] in Hall. apply andb_true_iff in Hall as [Hset Hclear].
    cbn [weighted_sum_from]. injection Hlen as Hlen.
    destruct b; apply IH; assumption.
Qed.

Lemma percentages_within_weights_eq (n : nat) (i : Z) (acc : float) :
  percentages_within n i acc = percentages_within_weights (weights_from n i) acc.
Proof.
  revert i acc. induction n as [|n IH]; intros i acc; [reflexivity|].
  cbn [percentages_within weights_from percentages_within_weights].
  rewrite !IH. reflexivity.
Qed.

Lemma percentages_of_20_slots : percentages_within 20 0 0%float = true.
Proof. rewrite percentages_within_weights_eq. vm_compute. reflexivity. Qed.

(** X3: the percentage that UpdateFlappingStatus stores is never below 0
    and never above 99, the value of a history with all 20 slots set. *)
Theorem UpdateFlappingStatus_value_within_0_99
  (now : float) (stateChange : bool) (c c' : Checkable) :
  UpdateFlappingStatus now stateChange c = Some c' ->
  PrimFloat.leb 0 (FlappingCurrent c') = true
  /\ PrimFloat.leb (FlappingCurrent c') 99 = true
  /\ flap_percentage (repeat true 20) = 99%float
  /\ flap_percentage (repeat false 20) = 0%float.
Proof.
  intros Hrun.
  assert (Hidx : 0 <= FlappingIndex c < 20).
  { destruct (Z_le_dec 0 (FlappingIndex c)) as [Hlo|Hlo];
      [destruct (Z_lt_dec (FlappingIndex c) 20) as [Hhi|Hhi]; [lia|]|];
      exfalso; revert Hrun; unfold UpdateFlappingStatus, bitset_set.
    - destruct (Z.leb_spec 0 (FlappingIndex c)); [|discriminate].
      destruct (Z.ltb_spec (FlappingIndex c) 20); [lia | discriminate].
    - destruct (Z.leb_spec 0 (FlappingIndex c)); [lia | discriminate]. }
  destruct (UpdateFlappingStatus_in_range now stateChange c Hidx)
    as (c2 & Hrun2 & _ & _ & _ & Hvalue).
  rewrite Hrun in Hrun2. injection Hrun2 as <-.
  pose proof (percentages_within_sound 20 0 0%float percentages_of_20_slots
                (history (FlappingBuffer c') (FlappingIndex c')) eq_refl) as Hin.
  fold (weighted_sum (history (FlappingBuffer c') (FlappingIndex c'))) in Hin.
  fold (flap_percentage (history (FlappingBuffer c') (FlappingIndex c'))) in Hin.
  rewrite <- Hvalue in Hin. apply andb_true_iff in Hin as [Hlo Hhi].
  split; [exact Hlo|]. split; [exact Hhi|]. split; vm_compute; reflexivity.
Qed.

(** X4: between the thresholds the flag keeps its value: when the new
    percentage is greater than the low threshold and not greater than the
    high threshold, a checkable that was flapping stays flapping and one that
    was not does not start. *)
Theorem UpdateFlappingStatus_band_keeps_flag
  (now : float) (stateChange : bool) (c c' : Checkable) :
  UpdateFlappingStatus now stateChange c = Some c' ->
  PrimFloat.ltb (FlappingThresholdLow c) (FlappingCurrent c') = true ->
  PrimFloat.ltb (FlappingThresholdHigh c) (FlappingCurrent c') = false ->
  Flapping c' = Flapping c.
Proof.
  intros Hrun Hlow Hhigh. rewrite (UpdateFlappingStatus_flag _ _ _ _ Hrun).
  destruct (Flapping c); [exact Hlow | exact Hhigh].
Qed.

End FlappingRunFacts.

(** ** Parents, reachability and acknowledgements: further properties *)

Section ParentSetFacts.
Import Base Hosts.

Variable reg : Registry.
Variable h : Host.

Lemma host_set_insert_spec (p : Host) (s : list Host) :
  (forall q, In q (host_set_insert p s) -> In q s \/ q = p)
  /\ (forall q, In q s -> In q (host_set_insert p s))
  /\ (exists q, In q (host_set_insert p s) /\ GetName q = GetName p)
  /\ (NoDup (map GetName s) -> NoDup (map GetName (host_set_insert p s))).
Proof.
  unfold host_set_insert.
  destruct (existsb (fun q => String.eqb (GetName q) (GetName p)) s) eqn:Hex.
  - split; [auto|]. split; [auto|]. split; [|auto].
    apply existsb_exists in Hex as (q & Hq & Heq). apply String.eqb_eq in Heq. eauto.
  - split; [intros q Hq; apply in_app_iff in Hq as [Hq|[<-|[]]]; auto|].
    split; [intros q Hq; apply in_app_iff; auto|].
    split; [exists p; split; [apply in_app_iff; right; left|]; reflexivity|].
    intros Hnd. rewrite map_app. cbn [map].
    apply NoDup_app. split; [exact Hnd|]. split; [|apply NoDup_singleton].
    intros n Hn Hp. apply list_elem_of_singleton in Hp. subst n.
    apply list_elem_of_In, in_map_iff in Hn as (q & Hname & Hq).
    assert (Hfalse : existsb (fun q => String.eqb (GetName q) (GetName p)) s = true).
    { apply existsb_exists. exists q. split; [exact Hq | apply String.eqb_eq, Hname]. }
    congruence.
Qed.

Lemma GetParentHosts_loop_returns (deps : Dictionary) (parents ps : list Host) :
  GetParentHosts_loop reg h deps parents = Return ps ->
  (forall p, In p ps ->
     In p parents
     \/ exists key, In key (map fst deps) /\ key <> GetName h
                    /\ host_objects reg !! key = Some p)
  /\ (forall p, In p parents -> In p ps)
  /\ (forall key p, In key (map fst deps) -> key <> GetName h ->
        host_objects reg !! key = Some p ->
        exists q, In q ps /\ GetName q = GetName p)
  /\ (NoDup (map GetName parents) -> NoDup (map GetName ps)).
Proof.
  revert parents. induction deps as [|[key v] deps IH]; intros parents;
    cbn [GetParentHosts_loop map fst].
  - intros [= <-]. split; [auto|]. split; [auto|]. split; [intros k p []|auto].
  - destruct (String.eqb_spec key (GetName h)) as [Hown|Hother].
    + intros Hrun. destruct (IH _ Hrun) as (Hsound & Hkeep & Hcomplete & Hnd).
      split; [|split; [exact Hkeep|split; [|exact Hnd]]].
      * intros p Hp. destruct (Hsound p Hp) as [Hacc|(k & Hk & Hne & Hlook)]; [auto|].
        right. exists k. split; [right; exact Hk | auto].
      * intros k p [<-|Hk] Hne Hlook; [destruct (Hne Hown)|]. eauto.
    + unfold Host_GetByName.
      destruct (host_objects reg !! key) as [parent|] eqn:Hlook; cbn [bind]; [|discriminate].
      intros Hrun. destruct (IH _ Hrun) as (Hsound & Hkeep & Hcomplete & Hnd).
      destruct (host_set_insert_spec parent parents) as (Hin & Hsub & (q0 & Hq0 & Hname0) & Hnd0).
      split; [|split; [|split]].
      * intros p Hp. destruct (Hsound p Hp) as [Hacc|(k & Hk & Hne & Hl)].
        -- destruct (Hin p Hacc) as [Hold| ->]; [auto|].
           right. exists key. split; [left; reflexivity | auto].
        -- right. exists k. split; [right; exact Hk | auto].
      * intros p Hp. apply Hkeep, Hsub, Hp.
      * intros k p [<-|Hk] Hne Hl; [|eauto].
        rewrite Hlook in Hl. injection Hl as <-.
        exists q0. split; [apply Hkeep, Hq0 | exact Hname0].
      * intros Hacc. apply Hnd, Hnd0, Hacc.
Qed.

(** X5: when GetParentHosts returns, every parent is the host registered
    under a key of the host-dependency map other than the host's own name,
    every such key has its host in the set (up to the name, by which
    registered objects are told apart), and no two parents have the same
    name.  A map that lists the host alone gives the empty set, and in a
    registry whose hosts carry the names they are registered under the host
    is never its own parent. *)
Theorem GetParentHosts_returns_the_registered_parents
  (deps : Dictionary) (ps : list Host) :
  GetHostDependencies h = Some deps ->
  GetParentHosts reg h = Return ps ->
  (forall p, In p ps ->
     exists key, In key (map fst deps) /\ key <> GetName h
                 /\ host_objects reg !! key = Some p)
  /\ (forall key p, In key (map fst deps) -> key <> GetName h ->
        host_objects reg !! key = Some p ->
        exists q, In q ps /\ GetName q = GetName p)
  /\ NoDup (map GetName ps)
  /\ ((forall key, In key (map fst deps) -> key = GetName h) -> ps = [])
  /\ ((forall key p, host_objects reg !! key = Some p -> GetName p = key) ->
      forall p, In p ps -> GetName p <> GetName h).
Proof.
  intros Hdeps. unfold GetParentHosts. rewrite Hdeps. intros Hrun.
  destruct (GetParentHosts_loop_returns deps [] ps Hrun) as (Hsound & _ & Hcomplete & Hnd).
  assert (Hsound' : forall p, In p ps ->
            exists key, In key (map fst deps) /\ key <> GetName h
                        /\ host_objects reg !! key = Some p).
  { intros p Hp. destruct (Hsound p Hp) as [[]|H]. exact H. }
  split; [exact Hsound'|]. split; [exact Hcomplete|].
  split; [apply Hnd; constructor|]. split.
  - intros Hown. destruct ps as [|p ps]; [reflexivity|].
    destruct (Hsound' p (or_introl eq_refl)) as (key & Hkey & Hne & _).
    destruct (Hne (Hown key Hkey)).
  - intros Hnamed p Hp Hsame.
    destruct (Hsound' p Hp) as (key & _ & Hne & Hlook).
    apply Hne. rewrite <- (Hnamed key p Hlook). exact Hsame.
Qed.

End ParentSetFacts.

Section ResolutionFacts.
Import Base Hosts Resolution.

Variable reg : Registry.
Variable h : Host.

Lemma ResolveService_resolved (name : string) :
  ResolveService reg h name
  = match resolved reg h name with
    | Some s => Return s
    | None => Throw (invalid_argument ("Service '" +:+ name +:+ "' does not exist."))
    end.
Proof.
  unfold ResolveService, resolved, Service_Exists, Service_GetByName.
  destruct (service_objects reg !! (GetName h +:+ "-" +:+ name)); [reflexivity|].
  destruct (service_objects reg !! name); reflexivity.
Qed.

Lemma service_set_insert_spec (p : Service) (s : list Service) :
  (forall q, In q (service_set_insert p s) -> In q s \/ q = p)
  /\ (forall q, In q s -> In q (service_set_insert p s))
  /\ (exists q, In q (service_set_insert p s) /\ service_name q = service_name p)
  /\ (NoDup (map service_name s) -> NoDup (map service_name (service_set_insert p s))).
Proof.
  unfold service_set_insert.
  destruct (existsb (fun q => String.eqb (service_name q) (service_name p)) s) eqn:Hex.
  - split; [auto|]. split; [auto|]. split; [|auto].
    apply existsb_exists in Hex as (q & Hq & Heq). apply String.eqb_eq in Heq. eauto.
  - split; [intros q Hq; apply in_app_iff in Hq as [Hq|[<-|[]]]; auto|].
    split; [intros q Hq; apply in_app_iff; auto|].
    split; [exists p; split; [apply in_app_iff; right; left|]; reflexivity|].
    intros Hnd. rewrite map_app. cbn [map].
    apply NoDup_app. split; [exact Hnd|]. split; [|apply NoDup_singleton].
    intros n Hn Hp. apply list_elem_of_singleton in Hp. subst n.
    apply list_elem_of_In, in_map_iff in Hn as (q & Hname & Hq).
    assert (Hfalse : existsb (fun q => String.eqb (service_name q) (service_name p)) s = true).
    { apply existsb_exists. exists q. split; [exact Hq | apply String.eqb_eq, Hname]. }
    congruence.
Qed.

Lemma GetParentServices_loop_returns (deps : Dictionary) (parents ps : list Service) :
  GetParentServices_loop reg h deps parents = Return ps ->
  (forall p, In p ps ->
     In p parents \/ exists key, In key (map fst deps) /\ resolved reg h key = Some p)
  /\ (forall p, In p parents -> In p ps)
  /\ (forall key, In key (map fst deps) ->
        exists p q, resolved reg h key = Some p /\ In q ps
                    /\ service_name q = service_name p)
  /\ (NoDup (map service_name parents) -> NoDup (map service_name ps)).
Proof.
  revert parents. induction deps as [|[key v] deps IH]; intros parents;
    cbn [GetParentServices_loop map fst].
  - intros [= <-]. split; [auto|]. split; [auto|]. split; [intros k []|auto].
  - rewrite ResolveService_resolved.
    destruct (resolved reg h key) as [parent|] eqn:Hres; cbn [bind]; [|discriminate].
    intros Hrun. destruct (IH _ Hrun) as (Hsound & Hkeep & Hcomplete & Hnd).
    destruct (service_set_insert_spec parent parents)
      as (Hin & Hsub & (q0 & Hq0 & Hname0) & Hnd0).
    split; [|split; [|split]].
    + intros p Hp. destruct (Hsound p Hp) as [Hacc|(k & Hk & Hl)].
      * destruct (Hin p Hacc) as [Hold| ->]; [auto|].
        right. exists key. split; [left; reflexivity | exact Hres].
      * right. exists k. split; [right; exact Hk | exact Hl].
    + intros p Hp. apply Hkeep, Hsub, Hp.
    + intros k [<-|Hk]; [|apply Hcomplete, Hk].
      exists parent, q0. split; [exact Hres|]. split; [apply Hkeep, Hq0 | exact Hname0].
    + intros Hacc. apply Hnd, Hnd0, Hacc.
Qed.

(** X6: a key of the service-dependency map stands for the service
    registered as "<host>-<key>" when there is one, even if a service is
    registered as "<key>" too, and for the service registered as "<key>"
    otherwise.  When GetParentServices returns, its set holds exactly the
    services the keys stand for, each once; when a key stands for nothing,
    ResolveService throws and names the bare key. *)
Theorem GetParentServices_returns_the_resolved_services
  (deps : Dictionary) (ps : list Service) :
  GetServiceDependencies h = Some deps ->
  GetParentServices reg h = Return ps ->
  (forall p, In p ps -> exists key, In key (map fst deps) /\ resolved reg h key = Some p)
  /\ (forall key, In key (map fst deps) ->
        exists p q, resolved reg h key = Some p /\ In q ps
                    /\ service_name q = service_name p)
  /\ NoDup (map service_name ps)
  /\ (forall name scoped,
        service_objects reg !! (GetName h +:+ "-" +:+ name) = Some scoped ->
        ResolveService reg h name = Return scoped)
  /\ (forall name,
        service_objects reg !! (GetName h +:+ "-" +:+ name) = None ->
        ResolveService reg h name
        = match service_objects reg !! name with
          | Some bare => Return bare
          | None => Throw (invalid_argument ("Service '" +:+ name +:+ "' does not exist."))
          end).
Proof.
  intros Hdeps. unfold GetParentServices. rewrite Hdeps. intros Hrun.
  destruct (GetParentServices_loop_returns deps [] ps Hrun)
    as (Hsound & _ & Hcomplete & Hnd).
  split; [|split; [exact Hcomplete|split; [apply Hnd; constructor|split]]].
  - intros p Hp. destruct (Hsound p Hp) as [[]|H]. exact H.
  - intros name scoped Hs. rewrite ResolveService_resolved. unfold resolved.
    rewrite Hs. reflexivity.
  - intros name Hs. rewrite ResolveService_resolved. unfold resolved. rewrite Hs.
    reflexivity.
Qed.

End ResolutionFacts.

Section UpFacts.
Import Base Hosts Resolution.

Variable ResolveDependencies : Registry -> Host -> Dictionary -> Result Dictionary.
Variable reg : Registry.

Lemma failing_dec (s : Service) :
  failing s <->
  negb (ServiceState_eqb (State s) StateOK) && negb (ServiceState_eqb (State s) StateWarning)
  = true.
Proof.
  unfold failing. destruct (State s); cbn; split;
    try (intros [H _]; exfalso; apply H; reflexivity);
    try (intros [_ H]; exfalso; apply H; reflexivity);
    try discriminate; try reflexivity;
    intros _; split; discriminate.
Qed.

Lemma IsUp_loop_spec (hostchecks : Dictionary) :
  (forall hostcheck, In hostcheck (map snd hostchecks) ->
     exists s, checked_service reg hostcheck = Some s) ->
  (IsUp_loop reg hostchecks = Return false
   /\ exists hostcheck s, In hostcheck (map snd hostchecks)
                          /\ checked_service reg hostcheck = Some s /\ failing s)
  \/ (IsUp_loop reg hostchecks = Return true
      /\ forall hostcheck s, In hostcheck (map snd hostchecks) ->
           checked_service reg hostcheck = Some s -> ~ failing s).
Proof.
  induction hostchecks as [|[key hostcheck] rest IH]; intros Hall;
    cbn [IsUp_loop map snd].
  - right. split; [reflexivity | intros v s []].
  - destruct (Hall hostcheck (or_introl eq_refl)) as [s Hs].
    unfold checked_service in Hs.
    destruct (Value_to_String hostcheck) as [name|e] eqn:Hname; [|discriminate].
    cbn [bind]. unfold Service_GetByName. rewrite Hs. cbn [bind].
    pose proof (failing_dec s) as Hdec.
    destruct (negb (ServiceState_eqb (State s) StateOK)
              && negb (ServiceState_eqb (State s) StateWarning)).
    + left. split; [reflexivity|]. exists hostcheck, s.
      split; [left; reflexivity|]. split; [|apply Hdec; reflexivity].
      unfold checked_service. rewrite Hname. exact Hs.
    + destruct IH as [(Hr & v & s' & Hv & Hs' & Hf)|(Hr & Hnone)].
      * intros v Hv. apply Hall. right. exact Hv.
      * left. split; [exact Hr|]. exists v, s'. split; [right; exact Hv | auto].
      * right. split; [exact Hr|]. intros v s' [<-|Hv] Hs'; [|eauto].
        unfold checked_service in Hs'. rewrite Hname, Hs in Hs'. injection Hs' as <-.
        intros Hf. apply Hdec in Hf. discriminate.
Qed.

(** X7: a host without host checks is up.  With host checks that resolve to
    [hostchecks] and all name registered services, IsUp returns false if and
    only if one of these services is in a state other than OK and Warning,
    and true otherwise; a host check that names no registered service makes
    IsUp throw unless a service before it has already decided. *)
Theorem IsUp_false_iff (h : Host) :
  (Hosts.hostchecks h = None -> IsUp ResolveDependencies reg h = Return true)
  /\ (forall declared hostchecks,
        Hosts.hostchecks h = Some declared ->
        ResolveDependencies reg h declared = Return hostchecks ->
        (forall hostcheck, In hostcheck (map snd hostchecks) ->
           exists s, checked_service reg hostcheck = Some s) ->
        (IsUp ResolveDependencies reg h = Return false
         <-> exists hostcheck s, In hostcheck (map snd hostchecks)
                                 /\ checked_service reg hostcheck = Some s /\ failing s)
        /\ (IsUp ResolveDependencies reg h <> Return false ->
            IsUp ResolveDependencies reg h = Return true))
  /\ (forall declared key name rest,
        Hosts.hostchecks h = Some declared ->
        ResolveDependencies reg h declared = Return ((key, Scalar name) :: rest) ->
        service_objects reg !! name = None ->
        IsUp ResolveDependencies reg h
        = Throw (invalid_argument ("Service '" +:+ name +:+ "' does not exist."))).
Proof.
  split; [|split].
  - intros Hnone. unfold IsUp. rewrite Hnone. reflexivity.
  - intros declared hostchecks Hdecl Hres Hall. unfold IsUp. rewrite Hdecl, Hres.
    cbn [bind].
    destruct (IsUp_loop_spec hostchecks Hall) as [(Hr & Hex)|(Hr & Hnone)]; rewrite Hr.
    + split; [split; [intros _; exact Hex | reflexivity]|].
      intros Hne. destruct Hne. reflexivity.
    + split; [|reflexivity].
      split; [discriminate|]. intros (v & s & Hv & Hs & Hf). destruct (Hnone v s Hv Hs Hf).
  - intros declared key name rest Hdecl Hres Hmissing. unfold IsUp.
    rewrite Hdecl, Hres. cbn [bind IsUp_loop Value_to_String].
    unfold Service_GetByName. rewrite Hmissing. reflexivity.
Qed.

(** X8: IsReachable looks up the parent services first.  If that lookup
    throws, IsReachable throws the same exception; if a parent service
    stands in the way, IsReachable returns false without looking up the
    parent hosts, so a host dependency that does not resolve goes unnoticed;
    if no parent service stands in the way and the lookup of the parent
    hosts throws, IsReachable throws that exception. *)
Theorem IsReachable_order_of_lookups (h : Host) :
  (forall e, GetParentServices reg h = Throw e ->
     IsReachable ResolveDependencies reg h = Throw e)
  /\ (forall ps, GetParentServices reg h = Return ps ->
        (exists s, In s ps /\ blocking s) ->
        IsReachable ResolveDependencies reg h = Return false)
  /\ (forall ps e, GetParentServices reg h = Return ps ->
        (forall s, In s ps -> ~ blocking s) ->
        GetParentHosts reg h = Throw e ->
        IsReachable ResolveDependencies reg h = Throw e).
Proof.
  unfold IsReachable. split; [|split].
  - intros e ->. reflexivity.
  - intros ps -> Hblock. cbn [bind].
    apply IsReachable_services_false in Hblock. rewrite Hblock. reflexivity.
  - intros ps e -> Hnone ->. cbn [bind].
    destruct (IsReachable_services ps) eqn:Hsvc; [reflexivity|].
    apply IsReachable_services_false in Hsvc as (s & Hs & Hb). destruct (Hnone s Hs Hb).
Qed.

End UpFacts.

Section AcknowledgementReadFacts.
Import Base Hosts.

Lemma SFcompare_Lt_Gt (x y : spec_float) :
  SFcompare x y = Some Lt -> SFcompare y x = Some Gt.
Proof.
  destruct x as [sx|sx| |sx mx ex], y as [sy|sy| |sy my ey]; cbn;
    try discriminate; try (destruct sx; discriminate); try (destruct sy; discriminate);
    try (destruct sx; intros [=]; reflexivity);
    try (destruct sy; intros [=]; reflexivity).
  - destruct sx, sy; try discriminate; reflexivity.
  - destruct sx, sy; try discriminate; try reflexivity.
    all: rewrite (Z.compare_antisym ex ey).
    all: change (PosDef.Pos.compare_cont Eq mx my) with (Pos.compare mx my).
    all: change (PosDef.Pos.compare_cont Eq my mx) with (Pos.compare my mx).
    all: rewrite (Pos.compare_antisym mx my).
    all: destruct (ex ?= ey); cbn [CompOpp]; try discriminate; try reflexivity.
    all: destruct (mx ?= my)%positive; cbn [CompOpp]; try discriminate; reflexivity.
Qed.

(** [now < expiry] excludes [expiry < now]. *)
Lemma double_ltb_asym (x y : float) :
  PrimFloat.ltb x y = true -> PrimFloat.ltb y x = false.
Proof.
  rewrite !FloatAxioms.ltb_spec. unfold SFltb.
  destruct (SFcompare (Prim2SF x) (Prim2SF y)) as [[| |]|] eqn:Hc; try discriminate.
  intros _. rewrite (SFcompare_Lt_Gt _ _ Hc). reflexivity.
Qed.

Lemma GetAcknowledgement_cases (now : float) (h : Host) :
  (GetAcknowledgement now h = (AcknowledgementNone, h)
   /\ (acknowledgement h = None \/ acknowledgement h = Some AcknowledgementNone))
  \/ (GetAcknowledgement now h = (AcknowledgementNone, cleared h)
      /\ expired (GetAcknowledgementExpiry h) now = true)
  \/ (exists a, GetAcknowledgement now h = (a, h) /\ acknowledgement h = Some a
                /\ a <> AcknowledgementNone
                /\ expired (GetAcknowledgementExpiry h) now = false).
Proof.
  unfold GetAcknowledgement, expired.
  destruct (acknowledgement h) as [a|] eqn:Hack; [|left; auto].
  destruct (Z.eqb_spec a AcknowledgementNone) as [->|Hne]; cbn [negb]; [left; auto|].
  right.
  destruct (negb (PrimFloat.eqb (GetAcknowledgementExpiry h) 0)
            && PrimFloat.ltb (GetAcknowledgementExpiry h) now);
    [left; auto | right; exists a; auto].
Qed.

(** X9: once a read of the acknowledgement has returned none, every later
    read, at whatever time, returns none and leaves the host as it is: an
    acknowledgement that has expired does not come back, and the read that
    clears it is the only one that writes.  A read at the same time as the
    one before returns the same value and writes nothing. *)
Theorem GetAcknowledgement_read_again (now : float) (h : Host) :
  ((GetAcknowledgement now h).1 = AcknowledgementNone ->
   forall later,
     GetAcknowledgement later (GetAcknowledgement now h).2
     = (AcknowledgementNone, (GetAcknowledgement now h).2))
  /\ GetAcknowledgement now (GetAcknowledgement now h).2
     = ((GetAcknowledgement now h).1, (GetAcknowledgement now h).2).
Proof.
  destruct (GetAcknowledgement_cases now h)
    as [(Hrun & Hack)|[(Hrun & Hexp)|(a & Hrun & Hack & Hne & Hexp)]];
    rewrite Hrun; cbn [fst snd].
  - assert (Hagain : forall t, GetAcknowledgement t h = (AcknowledgementNone, h)).
    { intros t. unfold GetAcknowledgement. destruct Hack as [-> | ->]; reflexivity. }
    split; [intros _ later; apply Hagain | apply Hagain].
  - assert (Hagain : forall t,
              GetAcknowledgement t (cleared h) = (AcknowledgementNone, cleared h)).
    { intros t. apply GetAcknowledgement_none_stored, cleared_fields. }
    split; [intros _ later; apply Hagain | apply Hagain].
  - split; [intros Hnone; destruct (Hne Hnone) | exact Hrun].
Qed.

(** X10: an acknowledgement is in force as long as its expiry has not
    passed.  With no expiry stored, with the expiry 0, with an expiry equal
    to the current time, or with an expiry later than the current time,
    GetAcknowledgement returns the stored type and writes nothing. *)
Theorem GetAcknowledgement_in_force (now : float) (h : Host) (a : AcknowledgementType) :
  acknowledgement h = Some a ->
  acknowledgement_expiry h = None
  \/ PrimFloat.eqb (GetAcknowledgementExpiry h) 0 = true
  \/ PrimFloat.eqb (GetAcknowledgementExpiry h) now = true
  \/ PrimFloat.ltb now (GetAcknowledgementExpiry h) = true ->
  GetAcknowledgement now h = (a, h).
Proof.
  intros Hack Hcase. unfold GetAcknowledgement. rewrite Hack.
  destruct (negb (a =? AcknowledgementNone)); [|reflexivity].
  assert (Hnot : negb (PrimFloat.eqb (GetAcknowledgementExpiry h) 0)
                 && PrimFloat.ltb (GetAcknowledgementExpiry h) now = false).
  { destruct Hcase as [Hnone|[Hzero|[Hnow|Hlater]]].
    - unfold GetAcknowledgementExpiry. rewrite Hnone. reflexivity.
    - rewrite Hzero. reflexivity.
    - apply andb_false_iff. right. apply double_eqb_not_ltb.
      rewrite FloatAxioms.eqb_spec in Hnow |- *. unfold SFeqb in *.
      destruct (SFcompare (Prim2SF (GetAcknowledgementExpiry h)) (Prim2SF now))
        as [[| |]|] eqn:Hc; try discriminate.
      rewrite (SFcompare_Eq_sym _ _ Hc). reflexivity.
    - apply andb_false_iff. right. apply double_ltb_asym. exact Hlater. }
  rewrite Hnot. reflexivity.
Qed.

End AcknowledgementReadFacts.

(** ** The cache of services: further properties *)

Section ServicesCacheReadFacts.
Import Base Hosts ServicesCache CacheReads.

Lemma services_of_host_same_objects (st st' : Objects) (host : string) (a : address) :
  alive st' = alive st -> registered st' = registered st ->
  services_of_host host st' a <-> services_of_host host st a.
Proof. unfold services_of_host. intros -> ->. reflexivity. Qed.

Lemma services_of_host_alive (st : Objects) (host : string) (a : address) :
  services_of_host host st a -> is_Some (alive st !! a).
Proof. intros (s & _ & Hs & _). rewrite Hs. eauto. Qed.

(** After its test of the flag, [ValidateServicesCache] leaves a cache that
    is up to date. *)
Lemma ValidateServicesCache_up_to_date (st : Objects) (host : string) (a : address) :
  consistent st -> up_to_date st ->
  a ∈ default [] (m_ServicesCache (ValidateServicesCache st) !! host)
  /\ is_Some (alive st !! a)
  <-> services_of_host host st a.
Proof.
  intros Hst Hup. destruct (m_ServicesCacheValid st) eqn:Hvalid.
  - unfold ValidateServicesCache. rewrite Hvalid. apply (Hup Hvalid).
  - rewrite (rebuilt_cache_groups st host a Hst Hvalid). split; [tauto|].
    intros H. split; [exact H | apply (services_of_host_alive _ _ _ H)].
Qed.

Lemma up_to_date_step (op : operation) (st : Objects) :
  consistent st -> up_to_date st -> up_to_date (step st op).
Proof.
  intros Hst Hup. destruct op as [s|name| |host]; cbn [step];
    try (intros Hvalid; discriminate Hvalid).
  intros _ other a.
  destruct (GetServices_objects host st) as (Halive & Hreg & _).
  rewrite (services_of_host_same_objects st _ other a Halive Hreg), Halive.
  rewrite <- (ValidateServicesCache_up_to_date st other a Hst Hup).
  unfold GetServices. cbn [snd m_ServicesCache].
  destruct (decide (host = other)) as [->|Hne].
  - rewrite lookup_insert_eq. reflexivity.
  - rewrite lookup_insert_ne by exact Hne. reflexivity.
Qed.

Lemma up_to_date_run (ops : list operation) (st : Objects) :
  consistent st -> up_to_date st -> consistent (run ops st) /\ up_to_date (run ops st).
Proof.
  revert st. induction ops as [|op ops IH]; intros st Hst Hup; [auto|].
  apply IH; [apply consistent_step, Hst | apply up_to_date_step; assumption].
Qed.

Lemma up_to_date_initial : up_to_date initial.
Proof.
  intros _ host a. cbn. rewrite lookup_empty. split.
  - intros [H _]. apply elem_of_nil in H. destruct H.
  - intros (s & H & _). cbn in H. rewrite lookup_empty in H. discriminate.
Qed.

(** X11: the cache is never stale.  The cache starts out empty and marked
    valid, with no service registered; every registration and every removal
    of a service invalidates it (section 4.2 of the specification), and a
    read rebuilds it when it is marked invalid.  So after any sequence of
    registrations, removals, invalidations and reads, GetServices for a host
    returns exactly the live registered services that declare the host, and
    a cache that is marked valid lists, under every host name, exactly those
    services among its live entries. *)
Theorem GetServices_never_stale (ops : list operation) (name : string) :
  (forall a,
     a ∈ (GetServices name (run ops initial)).1
     <-> services_of_host name (run ops initial) a)
  /\ (m_ServicesCacheValid (run ops initial) = true ->
      forall host a,
        a ∈ default [] (m_ServicesCache (run ops initial) !! host)
        /\ is_Some (alive (run ops initial) !! a)
        <-> services_of_host host (run ops initial) a).
Proof.
  destruct (up_to_date_run ops initial consistent_initial up_to_date_initial) as [Hst Hup].
  split; [|exact Hup].
  intros a. rewrite GetServices_entries.
  apply (ValidateServicesCache_up_to_date _ name a Hst Hup).
Qed.

Lemma GetServices_state (name : string) (st : Objects) :
  let cache := m_ServicesCache (ValidateServicesCache st) in
  (GetServices name st).2
  = mkObjects (alive st) (registered st) (next_address st)
      (<[name := default [] (cache !! name)]> cache) true.
Proof.
  unfold GetServices. cbn [snd]. unfold ValidateServicesCache.
  destruct (m_ServicesCacheValid st) eqn:Hvalid; cbn; rewrite ?Hvalid; reflexivity.
Qed.

(** X12: reading is repeatable.  A second GetServices for the same host
    returns the same set and leaves the state the first call left; and a
    read for one host does not change what a later read returns for
    another. *)
Theorem GetServices_read_again (name other : string) (st : Objects) :
  GetServices name (GetServices name st).2 = GetServices name st
  /\ (GetServices other (GetServices name st).2).1 = (GetServices other st).1.
Proof.
  pose proof (GetServices_state name st) as Hstate. cbn zeta in Hstate.
  rewrite Hstate.
  destruct (ValidateServicesCache_objects st) as (Halive & Hreg & Hnext).
  set (cache := m_ServicesCache (ValidateServicesCache st)) in *.
  assert (Hvalid : m_ServicesCacheValid (ValidateServicesCache st) = true).
  { unfold ValidateServicesCache. destruct (m_ServicesCacheValid st) eqn:H; [exact H|].
    reflexivity. }
  set (R := mkObjects (alive st) (registered st) (next_address st)
              (<[name := default [] (cache !! name)]> cache) true).
  assert (Hfix : ValidateServicesCache R = R) by reflexivity.
  split.
  - unfold GetServices, lock. rewrite Hfix. unfold R.
    cbn [m_ServicesCacheValid m_ServicesCache alive registered next_address].
    fold cache. rewrite Halive, Hreg, Hnext, Hvalid, lookup_insert_eq.
    cbn [default from_option id]. rewrite insert_insert_eq. reflexivity.
  - unfold GetServices, lock. rewrite Hfix. unfold R.
    cbn [m_ServicesCacheValid m_ServicesCache alive registered next_address fst].
    fold cache. rewrite Halive.
    destruct (decide (name = other)) as [->|Hne].
    + rewrite lookup_insert_eq. reflexivity.
    + rewrite lookup_insert_ne by exact Hne. reflexivity.
Qed.

End ServicesCacheReadFacts.

(** ** The handlers: further properties *)

Section HandlerEdgeFacts.
Import Base Hosts ConfigBridge Removal.

(** X13: the commit of an item that is not of type "Host", or of a host
    item for which no host object exists (an abstract host), is ignored: the
    handler returns and changes nothing. *)
Theorem ObjectCommittedHandler_ignores_other_items (item : ConfigItem) (cfg : Config) :
  item_type item <> "Host"%string \/ host_objects (objects cfg) !! item_name item = None ->
  ObjectCommittedHandler item cfg = (Return tt, cfg).
Proof.
  intros Hcase. unfold ObjectCommittedHandler, Host_Exists.
  destruct (String.eqb_spec (item_type item) "Host") as [Htype|Htype]; cbn [negb];
    [|reflexivity].
  destruct Hcase as [Hne|Hnone]; [destruct (Hne Htype)|].
  rewrite Hnone. reflexivity.
Qed.

Lemma unregister_old_frame (old new : list (string * option ConfigItem)) (cfg : Config) :
  host_objects (objects (unregister_old old new cfg)) = host_objects (objects cfg)
  /\ errors (unregister_old old new cfg) = errors cfg.
Proof.
  rewrite unregister_old_fold.
  destruct (unregisters_fold (absent_services old new) cfg) as (_ & Ho & He & _).
  split; assumption.
Qed.

(** A service item that has been built carries the synthesized name. *)
Lemma build_service_name (item : ConfigItem) (host : Host) (svcname : string)
  (svcdesc : Value) (serviceItem : ConfigItem) :
  build_service item host svcname svcdesc = Return serviceItem ->
  item_name serviceItem = synthesized_name (item_name item) svcname.
Proof.
  intros Hb. destruct (well_formed_description svcdesc) eqn:Hwf.
  - destruct (build_service_well_formed item host svcname svcdesc Hwf) as (it & Hit & _ & Hn).
    congruence.
  - destruct (build_service_malformed item host svcname svcdesc Hwf) as (e & He & _).
    congruence.
Qed.

(** The first loop touches the entries under the synthesized names only. *)
Lemma build_services_other_name (item : ConfigItem) (host : Host) (descs : Dictionary)
  (acc : list (string * option ConfigItem)) (cfg : Config) (n : string) :
  ~ In n (synthesized_names item descs) ->
  service_objects (objects (build_services item host descs acc cfg).2) !! n
  = service_objects (objects cfg) !! n
  /\ forall type, items (build_services item host descs acc cfg).2 !! (type, n)
                  = items cfg !! (type, n).
Proof.
  revert acc cfg. induction descs as [|[svcname svcdesc] descs IH]; intros acc cfg Hn;
    cbn [build_services]; [split; reflexivity|].
  unfold synthesized_names in Hn. cbn [map fst In] in Hn.
  destruct (build_service item host svcname svcdesc) as [serviceItem|e] eqn:Hb;
    [|split; reflexivity].
  destruct (IH (Set_ acc (item_name item +:+ "-" +:+ svcname) (Some serviceItem))
              (Commit serviceItem cfg)) as [Hs Hi].
  { intros Hin. apply Hn. right. exact Hin. }
  destruct (Commit_other_name serviceItem cfg n) as [Hs' Hi'].
  { rewrite (build_service_name _ _ _ _ _ Hb). intros Heq. apply Hn. left. exact Heq. }
  split; [rewrite Hs; exact Hs'|]. intros type. rewrite Hi. apply Hi'.
Qed.

(** The second loop touches the entries under the names of old services
    only. *)
Lemma unregister_old_other_name (old new : list (string * option ConfigItem))
  (cfg : Config) (n : string) :
  ~ In n (map item_name (items_of old)) ->
  service_objects (objects (unregister_old old new cfg)) !! n
  = service_objects (objects cfg) !! n
  /\ forall type, items (unregister_old old new cfg) !! (type, n) = items cfg !! (type, n).
Proof.
  revert cfg. induction old as [|[k [service|]] old IH]; intros cfg Hn;
    cbn [unregister_old items_of map In] in *; [split; reflexivity| |apply IH, Hn].
  destruct (negb (Contains new (item_name service))).
  - destruct (IH (Unregister service cfg)) as [Hs Hi]; [tauto|].
    destruct (Unregister_other_name service cfg n) as [Hs' Hi']; [tauto|].
    split; [rewrite Hs; exact Hs'|]. intros type. rewrite Hi. apply Hi'.
  - apply IH. tauto.
Qed.

(** X14: whatever the item and the state, and whether it returns or
    throws, ObjectCommittedHandler adds no error to the compiler's context
    and changes no host object other than the one named by the item; and it
    leaves the registered items and the service objects as they are under
    every name that is neither the name "<host>-<service>" of an inline
    service of the host nor the name of a service synthesized at the
    previous commit. *)
Theorem ObjectCommittedHandler_frame (item : ConfigItem) (cfg : Config) :
  errors (ObjectCommittedHandler item cfg).2 = errors cfg
  /\ (forall name, name <> item_name item ->
        host_objects (objects (ObjectCommittedHandler item cfg).2) !! name
        = host_objects (objects cfg) !! name)
  /\ (forall host n,
        host_objects (objects cfg) !! item_name item = Some host ->
        ~ In n (synthesized_names item (default [] (services host))) ->
        ~ In n (map item_name (items_of (default [] (convenience_services host)))) ->
        service_objects (objects (ObjectCommittedHandler item cfg).2) !! n
        = service_objects (objects cfg) !! n
        /\ forall type, items (ObjectCommittedHandler item cfg).2 !! (type, n)
                        = items cfg !! (type, n)).
Proof.
  unfold ObjectCommittedHandler, Host_Exists, Host_GetByName.
  destruct (negb (String.eqb (item_type item) "Host")); [repeat split|].
  destruct (host_objects (objects cfg) !! item_name item) as [host|] eqn:Hhost;
    cbn [negb]; [|repeat split].
  assert (Hbuilt : forall built,
            built = match services host with
                    | Some serviceDescs => build_services item host serviceDescs [] cfg
                    | None => (Return [], cfg)
                    end ->
            errors built.2 = errors cfg
            /\ host_objects (objects built.2) = host_objects (objects cfg)
            /\ forall n, ~ In n (synthesized_names item (default [] (services host))) ->
                 service_objects (objects built.2) !! n = service_objects (objects cfg) !! n
                 /\ forall type, items built.2 !! (type, n) = items cfg !! (type, n)).
  { intros built ->. destruct (services host) as [descs|]; cbn [default from_option id];
      [|repeat split].
    destruct (build_services_frame item host descs [] cfg) as (He & Ho & _).
    split; [exact He|]. split; [exact Ho|].
    intros n Hn. apply build_services_other_name, Hn. }
  destruct (match services host with
            | Some serviceDescs => build_services item host serviceDescs [] cfg
            | None => (Return [], cfg)
            end) as [[new|e] cfg1] eqn:Hb;
    destruct (Hbuilt _ eq_refl) as (He & Ho & Hother); cbn [fst snd] in *.
  - assert (Hold : errors match convenience_services host with
                          | Some oldServices => unregister_old oldServices new cfg1
                          | None => cfg1
                          end = errors cfg
                   /\ host_objects (objects match convenience_services host with
                                            | Some oldServices =>
                                              unregister_old oldServices new cfg1
                                            | None => cfg1
                                            end) = host_objects (objects cfg)
                   /\ forall n,
                        ~ In n (synthesized_names item (default [] (services host))) ->
                        ~ In n (map item_name
                                  (items_of (default [] (convenience_services host)))) ->
                        service_objects (objects match convenience_services host with
                                                 | Some oldServices =>
                                                   unregister_old oldServices new cfg1
                                                 | None => cfg1
                                                 end) !! n
                        = service_objects (objects cfg) !! n
                        /\ forall type,
                             items match convenience_services host with
                                   | Some oldServices => unregister_old oldServices new cfg1
                                   | None => cfg1
                                   end !! (type, n) = items cfg !! (type, n)).
    { destruct (convenience_services host) as [old|]; cbn [default from_option id].
      - destruct (unregister_old_frame old new cfg1) as [-> ->].
        split; [exact He|]. split; [exact Ho|]. intros n Hn Hold.
        destruct (unregister_old_other_name old new cfg1 n Hold) as [Hs Hi].
        destruct (Hother n Hn) as [Hs' Hi'].
        split; [rewrite Hs; exact Hs'|]. intros type. rewrite Hi. apply Hi'.
      - split; [exact He|]. split; [exact Ho|]. intros n Hn _. apply Hother, Hn. }
    destruct Hold as (He2 & Ho2 & Hother2). unfold store_services.
    cbn [errors objects service_objects host_objects items].
    split; [exact He2|]. split.
    + intros name Hne. rewrite lookup_insert_ne by congruence. rewrite Ho2. reflexivity.
    + intros host' n [= <-]. apply Hother2.
  - split; [exact He|]. split; [intros name _; rewrite Ho; reflexivity|].
    intros host' n [= <-] Hn _. apply Hother, Hn.
Qed.

Lemma copy_attribute_extends (get : string -> Value) (key : string)
  (op : ExpressionOperator) (b : ConfigItem) :
  item_parents (copy_attribute get key op b) = item_parents b
  /\ item_debuginfo (copy_attribute get key op b) = item_debuginfo b
  /\ exists copied,
       item_expressions (copy_attribute get key op b) = item_expressions b ++ copied
       /\ forall e, In e copied -> expr_key e = key /\ expr_value e = get key
                                    /\ IsEmpty (expr_value e) = false.
Proof.
  unfold copy_attribute. destruct (IsEmpty (get key)) eqn:Hempty; cbn [negb].
  - split; [reflexivity|]. split; [reflexivity|]. exists [].
    rewrite app_nil_r. split; [reflexivity | intros e []].
  - split; [reflexivity|]. split; [reflexivity|]. eexists. split; [reflexivity|].
    intros e [<-|[]]. cbn. auto.
Qed.

Lemma CopyServiceAttributes_extends (get : string -> Value) (b : ConfigItem) :
  item_parents (CopyServiceAttributes get b) = item_parents b
  /\ item_debuginfo (CopyServiceAttributes get b) = item_debuginfo b
  /\ exists copied,
       item_expressions (CopyServiceAttributes get b) = item_expressions b ++ copied
       /\ forall e, In e copied -> In (expr_key e) copied_keys
                                    /\ expr_value e = get (expr_key e)
                                    /\ IsEmpty (expr_value e) = false.
Proof.
  unfold CopyServiceAttributes.
  set (b1 := copy_attribute get "macros" OperatorPlus b).
  set (b2 := copy_attribute get "check_interval" OperatorSet b1).
  set (b3 := copy_attribute get "retry_interval" OperatorSet b2).
  set (b4 := copy_attribute get "servicegroups" OperatorPlus b3).
  destruct (copy_attribute_extends get "macros" OperatorPlus b) as (P1 & D1 & c1 & E1 & K1).
  destruct (copy_attribute_extends get "check_interval" OperatorSet b1)
    as (P2 & D2 & c2 & E2 & K2).
  destruct (copy_attribute_extends get "retry_interval" OperatorSet b2)
    as (P3 & D3 & c3 & E3 & K3).
  destruct (copy_attribute_extends get "servicegroups" OperatorPlus b3)
    as (P4 & D4 & c4 & E4 & K4).
  destruct (copy_attribute_extends get "checkers" OperatorSet b4)
    as (P5 & D5 & c5 & E5 & K5).
  fold b1 in P1, D1, E1, P2, D2, E2. fold b2 in P2, D2, E2, P3, D3, E3.
  fold b3 in P3, D3, E3, P4, D4, E4. fold b4 in P4, D4, E4, P5, D5, E5.
  split; [congruence|]. split; [congruence|].
  exists (c1 ++ c2 ++ c3 ++ c4 ++ c5). split.
  - rewrite E5, E4, E3, E2, E1, <- !app_assoc. reflexivity.
  - intros e He. unfold copied_keys.
    repeat (apply in_app_iff in He as [He|He]);
      [destruct (K1 e He) as (Hk & Hv & Hn) | destruct (K2 e He) as (Hk & Hv & Hn)
      | destruct (K3 e He) as (Hk & Hv & Hn) | destruct (K4 e He) as (Hk & Hv & Hn)
      | destruct (K5 e He) as (Hk & Hv & Hn)];
      (split; [rewrite Hk; cbn; tauto | split; [rewrite Hk; exact Hv | exact Hn]]).
Qed.


End HandlerEdgeFacts.

Section RegenerationFacts.
Import Base Hosts ConfigBridge Removal.

Lemma absent_services_owned (entries new : list (string * option ConfigItem)) :
  owned entries -> (forall n, In n (map fst entries) -> In n (map fst new)) ->
  absent_services entries new = [].
Proof.
  intros Howned Hkeys.
  destruct (absent_services entries new) as [|it rest] eqn:Habs; [reflexivity|].
  assert (Hin : In it (absent_services entries new)) by (rewrite Habs; left; reflexivity).
  apply absent_services_spec in Hin as [[k Hk] Hnot].
  destruct (Howned k _ Hk) as (it' & [= <-] & _ & Hname).
  exfalso. apply Hnot, Hkeys. rewrite Hname.
  apply in_map_iff. exists (k, Some it). auto.
Qed.

Lemma new_services_facts (item : ConfigItem) (host : Host) (descs : Dictionary) :
  all_well_formed descs ->
  owned (new_services item host descs)
  /\ forall n, In n (map fst (new_services item host descs))
               <-> In n (synthesized_names item descs).
Proof.
  intros Hwf. split.
  - apply new_services_owned; [exact Hwf | intros k v []].
  - intros n. unfold new_services. rewrite new_services_keys. cbn. tauto.
Qed.

(** X16: committing a host again with the inline services it was committed
    with unregisters nothing: the second call commits every synthesized
    service anew and stores the same names, and all of them are registered
    afterwards. *)
Theorem ObjectCommittedHandler_again_unregisters_nothing
  (item : ConfigItem) (cfg : Config) (host : Host) :
  item_type item = "Host"%string ->
  host_objects (objects cfg) !! item_name item = Some host ->
  all_well_formed (default [] (services host)) ->
  let descs := default [] (services host) in
  let cfg1 := (ObjectCommittedHandler item cfg).2 in
  let again := ObjectCommittedHandler item cfg1 in
  again.1 = Return tt
  /\ trace again.2
     = trace cfg1 ++ map Committed (synthesized_names item descs)
         ++ [Stored (item_name item) (map fst (new_services item host descs))]
  /\ (forall n, In n (synthesized_names item descs) ->
        is_Some (items again.2 !! ("Service"%string, n))).
Proof.
  intros Htype Hhost Hwf descs cfg1 again. unfold again, cfg1.
  rewrite (ObjectCommittedHandler_committed item cfg host Htype Hhost Hwf). cbn [snd].
  destruct (committed_facts item cfg host Hwf) as (_ & Hstored & _).
  fold descs in Hstored.
  set (new := new_services item host descs) in *.
  set (host1 := Set_convenience_services new host) in *.
  assert (Hwf1 : all_well_formed (default [] (services host1))) by exact Hwf.
  rewrite (ObjectCommittedHandler_committed item _ host1 Htype Hstored Hwf1).
  cbn [fst snd].
  destruct (committed_facts item (committed item host cfg) host1 Hwf1)
    as (Ht & _ & _ & Hreg & _).
  change (default [] (services host1)) with descs in Ht, Hreg.
  change (default [] (convenience_services host1)) with new in Ht.
  change (new_services item host1 descs) with new in Ht, Hreg.
  destruct (new_services_facts item host descs Hwf) as [Howned Hkeys]. fold new in Howned, Hkeys.
  rewrite (absent_services_owned new new Howned (fun n H => H)) in Ht.
  split; [reflexivity|]. split; [exact Ht|].
  intros n Hn. apply Hreg, Hkeys, Hn.
Qed.

Lemma unregister_all_owned (entries : list (string * option ConfigItem)) (cfg : Config) :
  owned entries ->
  unregister_all entries cfg
  = (Return tt, fold_left (fun c service => Unregister service c) (items_of entries) cfg)
  /\ map item_name (items_of entries) = map fst entries.
Proof.
  revert cfg. induction entries as [|[k v] entries IH]; intros cfg Howned.
  - split; reflexivity.
  - destruct (Howned k v (or_introl eq_refl)) as (it & -> & _ & Hname).
    assert (Hrest : owned entries) by (intros k' v' H; apply (Howned k' v'); right; exact H).
    destruct (IH (Unregister it cfg) Hrest) as [Hrun Hnames].
    cbn [unregister_all items_of fold_left]. split; [exact Hrun|].
    cbn [map fst]. rewrite Hname. f_equal. exact Hnames.
Qed.

Lemma items_of_In (entries : list (string * option ConfigItem)) (k : string)
  (it : ConfigItem) :
  In (k, Some it) entries -> In it (items_of entries).
Proof.
  induction entries as [|[k' [it'|]] entries IH]; cbn [items_of In].
  - intros [].
  - intros [[= <- <-]|H]; [left; reflexivity | right; apply IH, H].
  - intros [[=]|H]. apply IH, H.
Qed.

(** X17: ObjectRemovedHandler ignores an item that is not of type "Host",
    an item without an object, and a host without a stored set of
    synthesized services.  Called for a host after its commit, it returns
    after it has unregistered every synthesized service of the stored set, in
    the order of the set: none of the names "<host>-<service>" is registered
    afterwards.  It has no guard against a null entry in the set, where it
    faults. *)
Theorem ObjectRemovedHandler_unregisters_all
  (item : ConfigItem) (cfg : Config) (host : Host) :
  item_type item = "Host"%string ->
  host_objects (objects cfg) !! item_name item = Some host ->
  all_well_formed (default [] (services host)) ->
  let descs := default [] (services host) in
  let cfg1 := (ObjectCommittedHandler item cfg).2 in
  (forall stored,
     host_objects (objects cfg1) !! item_name item = Some stored ->
     (ObjectRemovedHandler item (Some stored) cfg1).1 = Return tt
     /\ trace (ObjectRemovedHandler item (Some stored) cfg1).2
        = trace cfg1 ++ map Unregistered (map fst (new_services item host descs))
     /\ (forall n, In n (synthesized_names item descs) ->
           items (ObjectRemovedHandler item (Some stored) cfg1).2 !! ("Service"%string, n)
           = None))
  /\ (forall other object any,
        item_type other <> "Host"%string ->
        ObjectRemovedHandler other object any = (Return tt, any))
  /\ (forall any, ObjectRemovedHandler item None any = (Return tt, any))
  /\ (forall object any, convenience_services object = None ->
        ObjectRemovedHandler item (Some object) any = (Return tt, any))
  /\ (forall object key rest any,
        convenience_services object = Some ((key, None) :: rest) ->
        ObjectRemovedHandler item (Some object) any = (Throw null_dereference, any)).
Proof.
  intros Htype Hhost Hwf descs cfg1.
  assert (Hhostitem : negb (String.eqb (item_type item) "Host") = false)
    by (rewrite Htype; reflexivity).
  split; [|split; [|split; [|split]]].
  - intros stored Hstored. unfold cfg1 in *.
    rewrite (ObjectCommittedHandler_committed item cfg host Htype Hhost Hwf) in *.
    cbn [snd] in *.
    destruct (committed_facts item cfg host Hwf) as (_ & Hlook & _).
    fold descs in Hlook. rewrite Hlook in Hstored. injection Hstored as <-.
    destruct (new_services_facts item host descs Hwf) as [Howned Hkeys].
    set (new := new_services item host descs) in *.
    unfold ObjectRemovedHandler. rewrite Hhostitem.
    cbn [convenience_services Set_convenience_services].
    destruct (unregister_all_owned new (committed item host cfg) Howned) as [-> Hnames].
    cbn [fst snd].
    destruct (unregisters_fold (items_of new) (committed item host cfg))
      as (Ht & _ & _ & Hgone & _).
    cbn zeta in Ht, Hgone. rewrite Ht, Hnames.
    split; [reflexivity|]. split; [reflexivity|].
    intros n Hn. apply Hkeys, in_map_iff in Hn as ([k v] & Hk & Hentry).
    cbn [fst] in Hk. subst k.
    destruct (Howned n v Hentry) as (it & -> & Hit & Hname).
    rewrite <- Hit, <- Hname. apply Hgone.
    apply (items_of_In new n it Hentry).
  - intros other object any Hother. unfold ObjectRemovedHandler.
    destruct (String.eqb_spec (item_type other) "Host") as [H|_]; [destruct (Hother H)|].
    reflexivity.
  - intros any. unfold ObjectRemovedHandler. rewrite Hhostitem. reflexivity.
  - intros object any Hnone. unfold ObjectRemovedHandler. rewrite Hhostitem, Hnone.
    reflexivity.
  - intros object key rest any Hnull. unfold ObjectRemovedHandler.
    rewrite Hhostitem, Hnull. reflexivity.
Qed.

Lemma validate_services_errors (location : string) (attrs : Dictionary) (cfg : Config) :
  Forall (fun entry => readable entry.2 = true) attrs ->
  validate_services location attrs cfg
  = (Return tt,
     mkConfig (objects cfg) (items cfg)
       (errors cfg ++ map (not_found location) (unresolved cfg attrs)) (trace cfg)).
Proof.
  intros Hread. revert cfg.
  induction Hread as [|[key value] attrs Hvalue Hrest IH]; intros cfg.
  - cbn. rewrite app_nil_r. destruct cfg; reflexivity.
  - cbn [validate_services unresolved]. cbn [snd] in Hvalue.
    assert (Hname :
      (if IsScalar value then Some (Value_to_String value)
       else match value with
            | DictionaryValue serviceDesc =>
              if Contains serviceDesc "service"
              then Some (Value_to_String (Get serviceDesc "service"))
              else Some (Return key)
            | _ => None
            end)
      = option_map Return (referenced_name key value)).
    { destruct value as [|text|serviceDesc|]; try reflexivity.
      cbn [IsScalar IsEmpty IsObject negb andb referenced_name].
      destruct (Contains serviceDesc "service"); [|reflexivity].
      cbn [readable] in Hvalue.
      destruct (Get serviceDesc "service"); try discriminate Hvalue; reflexivity. }
    rewrite Hname.
    destruct (referenced_name key value) as [name|]; cbn [option_map]; [|apply IH].
    destruct (items cfg !! ("Service"%string, name)) eqn:Hitem.
    + apply IH.
    + rewrite IH.
      assert (Hsame : forall l c1 c2, items c1 = items c2 -> unresolved c1 l = unresolved c2 l).
      { clear. induction l as [|[k v] l IHl]; intros c1 c2 Hi; [reflexivity|].
        cbn [unresolved]. rewrite Hi, (IHl c1 c2 Hi). reflexivity. }
      lazymatch goal with
      | |- context [unresolved (AddError ?w ?m cfg) attrs] =>
        rewrite (Hsame attrs (AddError w m cfg) cfg eq_refl)
      end.
      unfold AddError, not_found. cbn [objects items errors trace map].
      rewrite <- app_assoc. reflexivity.
Qed.

(** X18: called with a location and an attribute map whose entries can be
    read, ValidateServiceDictionary never throws: it finishes the task with
    the empty value and adds to the compiler's context one error for each
    entry that refers to a service for which no item is registered, in the
    order of the map, and nothing else changes.  An entry refers to its
    scalar, or to the "service" entry of its dictionary when the dictionary
    has that key (the empty name when the entry is empty), or else to its
    key; other entries refer to nothing.  When every service referred to is
    registered, the state is left as it is. *)
Theorem ValidateServiceDictionary_reports_unresolved
  (location : string) (attrs : Dictionary) (more : list Value) (cfg : Config) :
  Forall (fun entry => readable entry.2 = true) attrs ->
  ValidateServiceDictionary (Scalar location :: DictionaryValue attrs :: more) cfg
  = (Return Empty,
     mkConfig (objects cfg) (items cfg)
       (errors cfg ++ map (not_found location) (unresolved cfg attrs)) (trace cfg))
  /\ (unresolved cfg attrs = [] ->
      ValidateServiceDictionary (Scalar location :: DictionaryValue attrs :: more) cfg
      = (Return Empty, cfg))
  /\ (forall name, In name (unresolved cfg attrs)
      <-> exists key value, In (key, value) attrs
                            /\ referenced_name key value = Some name
                            /\ items cfg !! ("Service"%string, name) = None).
Proof.
  intros Hread.
  assert (Hrun :
    ValidateServiceDictionary (Scalar location :: DictionaryValue attrs :: more) cfg
    = (Return Empty,
       mkConfig (objects cfg) (items cfg)
         (errors cfg ++ map (not_found location) (unresolved cfg attrs)) (trace cfg))).
  { unfold ValidateServiceDictionary. cbn [length Nat.ltb Nat.leb Value_to_String].
    rewrite (validate_services_errors location attrs cfg Hread). reflexivity. }
  split; [exact Hrun|]. split.
  - intros Hnone. rewrite Hrun, Hnone. cbn [map]. rewrite app_nil_r.
    destruct cfg; reflexivity.
  - clear. intros name. induction attrs as [|[key value] attrs IH]; cbn [unresolved].
    + split; [intros [] | intros (k & v & [] & _)].
    + destruct (referenced_name key value) as [n|] eqn:Href.
      * destruct (items cfg !! ("Service"%string, n)) eqn:Hitem.
        -- rewrite IH. split.
           ++ intros (k & v & Hin & H). exists k, v. split; [right; exact Hin | exact H].
           ++ intros (k & v & [[= <- <-]|Hin] & Hr & Hi); [congruence|]. eauto.
        -- cbn [In]. rewrite IH. split.
           ++ intros [<-|(k & v & Hin & H)].
              ** exists key, value. split; [left; reflexivity | auto].
              ** exists k, v. split; [right; exact Hin | exact H].
           ++ intros (k & v & [[= <- <-]|Hin] & Hr & Hi); [left; congruence|].
              right. eauto.
      * rewrite IH. split.
        -- intros (k & v & Hin & H). exists k, v. split; [right; exact Hin | exact H].
        -- intros (k & v & [[= <- <-]|Hin] & Hr & Hi); [congruence|]. eauto.
Qed.

End RegenerationFacts.

Section EntityFacts.
Import Base Hosts ConfigBridge Removal.

(** The commits of the first loop register an entity under every synthesized
    name. *)
Lemma commits_register_entities (item : ConfigItem) (host : Host) (descs : Dictionary)
  (cfg : Config) (n : string) :
  all_well_formed descs -> In n (synthesized_names item descs) ->
  exists s,
    service_objects
      (objects (fold_left (fun c desc => Commit (synthesized_item item host desc) c) descs cfg))
    !! n = Some s
    /\ service_name s = n.
Proof.
  intros Hwf. revert cfg.
  induction Hwf as [|desc descs Hd Hrest IH]; intros cfg Hn; [destruct Hn|].
  cbn [fold_left].
  destruct (In_dec String.string_dec n (synthesized_names item descs)) as [Hin|Hnot];
    [apply IH, Hin|].
  destruct Hn as [Hn|Hn]; [|destruct (Hnot Hn)].
  destruct (synthesized_item_type_name item host desc Hd) as (_ & Htype & Hname).
  rewrite Hn in Hname.
  assert (Hloop :
    fold_left (fun c d => Commit (synthesized_item item host d) c) descs
      (Commit (synthesized_item item host desc) cfg)
    = (build_services item host descs [] (Commit (synthesized_item item host desc) cfg)).2)
    by (rewrite (build_services_well_formed item host descs [] _ Hrest); reflexivity).
  rewrite Hloop.
  destruct (build_services_other_name item host descs []
              (Commit (synthesized_item item host desc) cfg) n Hnot) as [-> _].
  exists (new_service (synthesized_item item host desc)).
  unfold Commit, create_object. cbn [objects]. rewrite Htype.
  replace (String.eqb "Service" "Service") with true by reflexivity.
  cbn [service_objects]. rewrite Hname, lookup_insert_eq.
  split; [reflexivity | exact Hname].
Qed.

(** The second loop removes the entities of the services it unregisters and
    leaves the others. *)
Lemma unregisters_entities (l : list ConfigItem) (cfg : Config) :
  let cfg' := fold_left (fun c service => Unregister service c) l cfg in
  (forall n, ~ In n (map item_name l) ->
     service_objects (objects cfg') !! n = service_objects (objects cfg) !! n)
  /\ (forall n, service_objects (objects cfg) !! n = None ->
        service_objects (objects cfg') !! n = None)
  /\ (forall it, In it l -> item_type it = "Service"%string ->
        service_objects (objects cfg') !! item_name it = None).
Proof.
  revert cfg. induction l as [|service l IH]; intros cfg; cbn [fold_left map In].
  - repeat split; [auto | intros it []].
  - destruct (IH (Unregister service cfg)) as (Hother & Hnone & Hgone). cbn zeta.
    assert (Hkeep : forall n, service_objects (objects cfg) !! n = None ->
                              service_objects (objects (Unregister service cfg)) !! n = None).
    { intros n Hn. unfold Unregister, remove_object. cbn [objects].
      destruct (String.eqb (item_type service) "Service"); [|exact Hn].
      cbn [service_objects]. apply lookup_delete_None. right. exact Hn. }
    split; [|split].
    + intros n Hn. rewrite Hother by tauto.
      apply (Unregister_other_name service cfg n). tauto.
    + intros n Hn. apply Hnone, Hkeep, Hn.
    + intros it [<-|Hin] Htype; [|apply Hgone; assumption].
      apply Hnone. unfold Unregister, remove_object. cbn [objects]. rewrite Htype.
      replace (String.eqb "Service" "Service") with true by reflexivity.
      cbn [service_objects]. apply lookup_delete_eq.
Qed.

(** X20: the commit of a host leaves its inline services registered as
    entities under the names the resolver tries first.  After the commit of
    a host all of whose inline services can be built, a service exists under
    every name "<host>-<service>", and ResolveService of the host resolves
    the bare name of every inline service to that service, whether or not a
    service with the bare name exists.  The services synthesized at the
    previous commit whose names the new set does not hold exist no longer. *)
Theorem synthesized_services_resolve (item : ConfigItem) (cfg : Config) (host : Host) :
  item_type item = "Host"%string ->
  host_objects (objects cfg) !! item_name item = Some host ->
  GetName host = item_name item ->
  all_well_formed (default [] (services host)) ->
  let descs := default [] (services host) in
  let old := default [] (convenience_services host) in
  let cfg' := (ObjectCommittedHandler item cfg).2 in
  (forall svcname, In svcname (map fst descs) ->
     Service_Exists (objects cfg') (synthesized_name (item_name item) svcname) = true
     /\ exists s, ResolveService (objects cfg') host svcname = Return s
                  /\ service_name s = synthesized_name (item_name item) svcname)
  /\ (owned old ->
      forall n, In n (map fst old) -> ~ In n (synthesized_names item descs) ->
        Service_Exists (objects cfg') n = false).
Proof.
  intros Htype Hhost Hname Hwf descs old cfg'.
  unfold cfg'. rewrite (ObjectCommittedHandler_committed item cfg host Htype Hhost Hwf).
  cbn [snd]. unfold committed. fold descs old.
  destruct (new_services_facts item host descs Hwf) as [_ Hkeys].
  set (new := new_services item host descs) in *.
  set (cfg1 := fold_left (fun c desc => Commit (synthesized_item item host desc) c) descs cfg).
  destruct (unregisters_entities (absent_services old new) cfg1) as (Hother & _ & Hgone).
  cbn zeta in Hother, Hgone.
  unfold store_services, Service_Exists, ResolveService, Service_Exists, Service_GetByName.
  cbn [objects service_objects]. split.
  - intros svcname Hin.
    assert (Hn : In (synthesized_name (item_name item) svcname) (synthesized_names item descs))
      by (apply in_map, Hin).
    destruct (commits_register_entities item host descs cfg
                (synthesized_name (item_name item) svcname) Hwf Hn) as (s & Hs & Hsname).
    fold cfg1 in Hs.
    assert (Hkept : service_objects
                      (objects (fold_left (fun c service => Unregister service c)
                                  (absent_services old new) cfg1))
                    !! synthesized_name (item_name item) svcname = Some s).
    { rewrite Hother; [exact Hs|].
      intros Habs. apply in_map_iff in Habs as (it & Hit & Habs).
      apply absent_services_spec in Habs as [_ Hnot].
      apply Hnot. rewrite Hit. apply Hkeys, Hn. }
    rewrite Hname. fold (synthesized_name (item_name item) svcname).
    rewrite Hkept. split; [reflexivity|]. exists s. split; [reflexivity | exact Hsname].
  - intros Howned n Hn Hnot.
    apply in_map_iff in Hn as ([k v] & Hk & Hentry). cbn [fst] in Hk. subst k.
    destruct (Howned n v Hentry) as (it & -> & Hit & Hitname).
    assert (Habs : In it (absent_services old new)).
    { apply absent_services_spec. split; [exists n; exact Hentry|].
      rewrite Hitname. intros H. apply Hnot, Hkeys, H. }
    rewrite <- Hitname, (Hgone it Habs Hit). reflexivity.
Qed.

End EntityFacts.

Section EmptyTemplateFacts.
Import Base Hosts ConfigBridge Removal.

(** X19: the handler and the validation read an inline service whose
    dictionary has a "service" entry that is empty (or the empty string) in
    two ways.  ObjectCommittedHandler tests the string and falls back to the
    name of the inline service as the parent; ValidateServiceDictionary
    tests the key and looks up the empty name, so that it reports
    "Service '' not found" even when the service named like the entry is
    registered. *)
Theorem empty_service_entry_read_differently
  (item : ConfigItem) (host : Host) (svcname location : string)
  (service : Dictionary) (cfg : Config) :
  Contains service "service" = true ->
  Get service "service" = Empty \/ Get service "service" = Scalar "" ->
  items cfg !! ("Service"%string, ""%string) = None ->
  (exists serviceItem,
     build_service item host svcname (DictionaryValue service) = Return serviceItem
     /\ item_parents serviceItem = [svcname])
  /\ validate_services location [(svcname, DictionaryValue service)] cfg
     = (Return tt, AddError false
                     ("Validation failed for " +:+ location +:+ ": Service '' not found.")
                     cfg).
Proof.
  intros Hkey Hempty Hnone. split.
  - unfold build_service. cbn [IsScalar IsEmpty IsObject negb andb].
    assert (Hparent : Value_to_String (Get service "service") = Return ""%string)
      by (destruct Hempty as [-> | ->]; reflexivity).
    rewrite Hparent. cbn [bind]. replace (String.eqb "" "") with true by reflexivity.
    eexists. split; [reflexivity|]. unfold Compile.
    match goal with
    | |- item_parents (CopyServiceAttributes ?g ?b) = _ =>
      destruct (CopyServiceAttributes_extends g b) as (-> & _)
    end.
    unfold AddParent. cbn [item_parents].
    match goal with
    | |- item_parents (CopyServiceAttributes ?g ?b) ++ _ = _ =>
      destruct (CopyServiceAttributes_extends g b) as (-> & _)
    end.
    reflexivity.
  - cbn [validate_services IsScalar IsEmpty IsObject negb andb]. rewrite Hkey.
    assert (Hparent : Value_to_String (Get service "service") = Return ""%string)
      by (destruct Hempty as [-> | ->]; reflexivity).
    rewrite Hparent, Hnone. reflexivity.
Qed.

End EmptyTemplateFacts.

Lemma empty_service_entry_read_differently_witness :
  exists serviceItem,
    ConfigBridge.build_service Installation.web_item Installation.web "http"
      (Base.DictionaryValue [("service"%string, Base.Empty)])
    = Base.Return serviceItem
    /\ Hosts.item_parents serviceItem = ["http"%string].
Proof.
  refine (proj1 (empty_service_entry_read_differently Installation.web_item Installation.web
            "http" "hosts.conf:7" [("service"%string, Base.Empty)]
            (Installation.configuration Installation.web) _ _ _)).
  - reflexivity.
  - left. reflexivity.
  - reflexivity.
Defined.

(** ** The statements above on the small installation *)

Lemma UpdateFlappingStatus_each_keeps_last_20_witness :
  exists c',
    FlappingRuns.UpdateFlappingStatus_each MoreExamples.twenty_changes
      FlappingExamples.calm_five_changes = Some c'
    /\ Flapping.history (Flapping.FlappingBuffer c') (Flapping.FlappingIndex c')
       = repeat true 20.
Proof.
  destruct (UpdateFlappingStatus_each_keeps_last_20 MoreExamples.twenty_changes
              FlappingExamples.calm_five_changes)
    as (c' & Hrun & _ & _ & Hlast).
  - cbn. lia.
  - exists c'. split; [exact Hrun|]. rewrite Hlast; [reflexivity | cbn; lia].
Defined.

Lemma UpdateFlappingStatus_value_within_0_99_witness :
  exists c',
    Flapping.UpdateFlappingStatus 1000%float true FlappingExamples.calm_full_history = Some c'
    /\ PrimFloat.leb (Flapping.FlappingCurrent c') 99 = true.
Proof.
  eexists. split; [vm_compute; reflexivity|].
  apply (UpdateFlappingStatus_value_within_0_99 1000%float true
           FlappingExamples.calm_full_history _ eq_refl).
Defined.

Lemma UpdateFlappingStatus_band_keeps_flag_witness :
  exists c',
    Flapping.UpdateFlappingStatus 1000%float false MoreExamples.flapping_in_band = Some c'
    /\ Flapping.FlappingCurrent c' = 25%float
    /\ Flapping.Flapping c' = Flapping.Flapping MoreExamples.flapping_in_band.
Proof.
  eexists. split; [vm_compute; reflexivity|]. split; [reflexivity|].
  apply (UpdateFlappingStatus_band_keeps_flag 1000%float false
           MoreExamples.flapping_in_band _ eq_refl); reflexivity.
Defined.

Lemma GetParentHosts_returns_the_registered_parents_witness :
  NoDup (map Hosts.GetName [Installation.router])
  /\ forall p, In p [Installation.router] -> Hosts.GetName p <> "web"%string.
Proof.
  destruct (GetParentHosts_returns_the_registered_parents
              (Installation.registry_with
                 (Installation.db_service Hosts.StateTypeHard Hosts.StateOK))
              Installation.web
              [("router"%string, Base.Empty); ("web"%string, Base.Empty)]
              [Installation.router])
    as (_ & _ & Hnd & _ & Hself).
  - reflexivity.
  - vm_compute. reflexivity.
  - split; [exact Hnd|]. intros p [<-|[]]. discriminate.
Defined.

Lemma GetParentServices_returns_the_resolved_services_witness :
  exists key,
    In key ["db"%string]
    /\ Resolution.resolved
         (Installation.registry_with
            (Installation.db_service Hosts.StateTypeHard Hosts.StateOK))
         Installation.web key
       = Some (Installation.db_service Hosts.StateTypeHard Hosts.StateOK).
Proof.
  refine (proj1 (GetParentServices_returns_the_resolved_services
            (Installation.registry_with
               (Installation.db_service Hosts.StateTypeHard Hosts.StateOK))
            Installation.web [("db"%string, Base.Empty)]
            [Installation.db_service Hosts.StateTypeHard Hosts.StateOK] _ _) _ _).
  - reflexivity.
  - vm_compute. reflexivity.
  - left. reflexivity.
Defined.

Lemma GetAcknowledgement_in_force_witness :
  Hosts.GetAcknowledgement 100%float Installation.web_acknowledged
  = (Hosts.AcknowledgementSticky, Installation.web_acknowledged).
Proof.
  apply (GetAcknowledgement_in_force 100%float Installation.web_acknowledged
           Hosts.AcknowledgementSticky).
  - reflexivity.
  - right. right. right. reflexivity.
Defined.

Lemma ObjectCommittedHandler_ignores_other_items_witness :
  ConfigBridge.ObjectCommittedHandler Installation.web_item MoreExamples.no_objects
  = (Base.Return tt, MoreExamples.no_objects).
Proof.
  apply ObjectCommittedHandler_ignores_other_items. right. reflexivity.
Defined.


Lemma ObjectCommittedHandler_again_unregisters_nothing_witness :
  (ConfigBridge.ObjectCommittedHandler Installation.web_item
     (ConfigBridge.ObjectCommittedHandler Installation.web_item
        (Installation.configuration Installation.web)).2).1 = Base.Return tt.
Proof.
  refine (proj1 (ObjectCommittedHandler_again_unregisters_nothing Installation.web_item
            (Installation.configuration Installation.web) Installation.web _ _ _)).
  - reflexivity.
  - vm_compute. reflexivity.
  - repeat constructor.
Defined.

Lemma ObjectRemovedHandler_unregisters_all_witness :
  exists stored,
    Hosts.host_objects
      (ConfigBridge.objects
         (ConfigBridge.ObjectCommittedHandler Installation.web_item
            (Installation.configuration Installation.web)).2) !! "web"%string
    = Some stored
    /\ (Removal.ObjectRemovedHandler Installation.web_item (Some stored)
          (ConfigBridge.ObjectCommittedHandler Installation.web_item
             (Installation.configuration Installation.web)).2).1 = Base.Return tt.
Proof.
  eexists. split; [vm_compute; reflexivity|].
  refine (proj1 (proj1 (ObjectRemovedHandler_unregisters_all Installation.web_item
            (Installation.configuration Installation.web) Installation.web _ _ _) _ _)).
  - reflexivity.
  - vm_compute. reflexivity.
  - repeat constructor.
  - vm_compute. reflexivity.
Defined.

Lemma ValidateServiceDictionary_reports_unresolved_witness :
  (ConfigBridge.ValidateServiceDictionary
     [Base.Scalar "hosts.conf:7";
      Base.DictionaryValue [("ping"%string, Base.Scalar "ping-template")]]
     (Installation.configuration Installation.web)).1 = Base.Return Base.Empty.
Proof.
  rewrite (proj1 (ValidateServiceDictionary_reports_unresolved "hosts.conf:7"
             [("ping"%string, Base.Scalar "ping-template")] []
             (Installation.configuration Installation.web)
             ltac:(repeat constructor))).
  reflexivity.
Defined.

Lemma synthesized_services_resolve_witness :
  Hosts.Service_Exists
    (ConfigBridge.objects
       (ConfigBridge.ObjectCommittedHandler Installation.web_item
          (Installation.configuration Installation.web)).2) "web-ping" = true.
Proof.
  refine (proj1 (proj1 (synthesized_services_resolve Installation.web_item
            (Installation.configuration Installation.web) Installation.web _ _ _ _)
            "ping"%string _)).
  - reflexivity.
  - vm_compute. reflexivity.
  - reflexivity.
  - repeat constructor.
  - left. reflexivity.
Defined.
